(** * DmpBbo: dynamical systems and the RBFN function approximator

    A shallow embedding of
      - [src/dynamicalsystems/DynamicalSystem.cpp]
      - [src/dynamicalsystems/ExponentialSystem.cpp]
      - the two revisions of [FunctionApproximatorRBFN.cpp]
    together with the properties their documentation states about them.

    C++ [double] is idealised as a real number ([R]); an Eigen vector is
    the list of its coefficients, an Eigen matrix carries its shape and
    the list of its rows; a [nlohmann::json] value is a tree. *)

From Stdlib Require Import String Ascii.
From Stdlib Require Import Reals Lra Lia ZArith Bool Arith List.
Import ListNotations.
Local Open Scope R_scope.

(* ================================================================== *)
(** * Outcomes of a call *)
(* ================================================================== *)

(** The exceptions [nlohmann::json] raises in the code under study. *)
Inductive json_exception : Type :=
| out_of_range (key : string)   (* [at(key)]: key not found *)
| type_error.                   (* wrong kind of JSON value  *)

(** How a C++ call can end: it returns, it throws, an [assert] aborts the
    program, or it dereferences a null pointer (undefined behaviour). *)
Inductive outcome (A : Type) : Type :=
| Returns (a : A)
| Throws (e : json_exception)
| AssertionFailed
| NullDereference.
Arguments Returns {A} a.
Arguments Throws {A} e.
Arguments AssertionFailed {A}.
Arguments NullDereference {A}.

Definition bind {A B : Type} (c : outcome A) (k : A -> outcome B) : outcome B :=
  match c with
  | Returns a => k a
  | Throws e => Throws e
  | AssertionFailed => AssertionFailed
  | NullDereference => NullDereference
  end.

Notation "x <- c ;; k" := (bind c (fun x => k))
  (at level 61, c at next level, right associativity).

(** [assert(b)] *)
Definition assert (b : bool) : outcome unit :=
  if b then Returns tt else AssertionFailed.

(* ================================================================== *)
(** * Eigen vectors *)
(* ================================================================== *)

Definition VectorXd : Type := list R.

(** Coefficient-wise binary operation.  Eigen requires both operands to
    have the same size; on such operands this is the operation. *)
Fixpoint cwiseBinary (op : R -> R -> R) (a b : VectorXd) : VectorXd :=
  match a, b with
  | x :: a', y :: b' => op x y :: cwiseBinary op a' b'
  | _, _ => []
  end.

Definition vadd : VectorXd -> VectorXd -> VectorXd := cwiseBinary Rplus.
Definition vsub : VectorXd -> VectorXd -> VectorXd := cwiseBinary Rminus.
(** [c * v] *)
Definition smul (c : R) (v : VectorXd) : VectorXd := map (fun a => c * a) v.
(** [v / c] *)
Definition sdiv (v : VectorXd) (c : R) : VectorXd := map (fun a => a / c) v.

Declare Scope vec_scope.
Delimit Scope vec_scope with vec.
Infix "+v" := vadd (at level 50, left associativity) : vec_scope.
Infix "-v" := vsub (at level 50, left associativity) : vec_scope.
Infix "*v" := smul (at level 40, left associativity) : vec_scope.
Infix "/v" := sdiv (at level 40, left associativity) : vec_scope.
Local Open Scope vec_scope.

(** [v(i)] *)
Definition vcoeff (v : VectorXd) (i : nat) : R := nth i v 0.

(* ================================================================== *)
(** * Eigen matrices *)
(* ================================================================== *)

Record MatrixXd : Type := mkMatrixXd {
  rows : nat;
  cols : nat;
  coeffs : list (list R)   (* the rows, top to bottom *)
}.

(** [M(i,j)] *)
Definition coeff (M : MatrixXd) (i j : nat) : R :=
  nth j (nth i (coeffs M) []) 0.

(** The [r] x [c] matrix whose coefficient [(i,j)] is [g i j]: the value
    of an Eigen coefficient-wise expression once it is assigned. *)
Definition mat_of_fun (r c : nat) (g : nat -> nat -> R) : MatrixXd :=
  {| rows := r; cols := c;
     coeffs := map (fun i => map (fun j => g i j) (seq 0 c)) (seq 0 r) |}.

(** [v.transpose().replicate(n, 1)]: [n] copies of the row [v]. *)
Definition replicate_row (v : VectorXd) (n : nat) : MatrixXd :=
  mat_of_fun n (length v) (fun _ j => vcoeff v j).

(** [v.replicate(1, n)]: [n] copies of the column [v]. *)
Definition replicate_col (v : VectorXd) (n : nat) : MatrixXd :=
  mat_of_fun (length v) n (fun i _ => vcoeff v i).

(** [A.array() * B.array()] (shapes must agree in Eigen). *)
Definition cwiseProduct (A B : MatrixXd) : MatrixXd :=
  mat_of_fun (rows A) (cols A) (fun i j => coeff A i j * coeff B i j).

(** [A + B] (shapes must agree in Eigen). *)
Definition madd (A B : MatrixXd) : MatrixXd :=
  mat_of_fun (rows A) (cols A) (fun i j => coeff A i j + coeff B i j).

(** [M.transposeInPlace()] *)
Definition transposeInPlace (M : MatrixXd) : MatrixXd :=
  mat_of_fun (cols M) (rows M) (fun i j => coeff M j i).

(** [M.resize(r, c)]: the shape changes, the coefficients are
    unspecified when it does; every caller below overwrites them. *)
Definition resize (M : MatrixXd) (r c : nat) : MatrixXd :=
  mat_of_fun r c (fun i j => coeff M i j).

(** [M.row(i)] *)
Definition row (M : MatrixXd) (i : nat) : VectorXd :=
  map (fun j => coeff M i j) (seq 0 (cols M)).

(** The one-row matrix holding [r]. *)
Definition row_matrix (r : VectorXd) : MatrixXd :=
  mat_of_fun 1 (length r) (fun _ j => vcoeff r j).

(** Sum of the coefficients of a vector, left to right. *)
Definition vsum (v : VectorXd) : R := fold_left Rplus v 0.

(** [M.rowwise().sum()]: an [rows] x 1 matrix. *)
Definition rowwise_sum (M : MatrixXd) : MatrixXd :=
  mat_of_fun (rows M) 1 (fun i _ => vsum (row M i)).

(** [M.col(b).array() *= w] *)
Definition scale_col (M : MatrixXd) (b : nat) (w : R) : MatrixXd :=
  mat_of_fun (rows M) (cols M)
    (fun i j => if Nat.eqb j b then coeff M i j * w else coeff M i j).

(* ================================================================== *)
(** * DynamicalSystem.cpp *)
(* ================================================================== *)

Inductive IntegrationMethod : Type := EULER | RUNGE_KUTTA.

(** The data members of the base class. *)
Record DynamicalSystem : Type := mkDynamicalSystem {
  dim_ : nat;
  dim_orig_ : nat;
  tau_ : R;
  initial_state_ : VectorXd;
  attractor_state_ : VectorXd;
  integration_method_ : IntegrationMethod
}.

(** [DynamicalSystem::DynamicalSystem(order, tau, initial_state,
    attractor_state)]: the members are initialised, then the two
    assertions run. *)
Definition DynamicalSystem_ctor (order : nat) (tau : R)
    (initial_state attractor_state : VectorXd) : outcome DynamicalSystem :=
  let this :=
    {| dim_ := (length initial_state * order)%nat;
       dim_orig_ := length initial_state;
       tau_ := tau;
       initial_state_ := initial_state;
       attractor_state_ := attractor_state;
       integration_method_ := RUNGE_KUTTA |} in
  _ <- assert (Nat.eqb order 1 || Nat.eqb order 2) ;;
  _ <- assert (Nat.eqb (length initial_state) (length attractor_state)) ;;
  Returns this.

(** Modelled from the spec: the setter of [DynamicalSystem.hpp] (not part
    of the sources) behind the two-state configuration toggle of the
    integration method. *)
Definition set_integration_method (m : IntegrationMethod)
    (d : DynamicalSystem) : DynamicalSystem :=
  {| dim_ := dim_ d; dim_orig_ := dim_orig_ d; tau_ := tau_ d;
     initial_state_ := initial_state_ d;
     attractor_state_ := attractor_state_ d;
     integration_method_ := m |}.

(** The abstract class: a concrete system gives access to the base
    members and implements the pure virtual [differentialEquation]. *)
Class DynamicalSystemImpl (S : Type) : Type := {
  base : S -> DynamicalSystem;
  differentialEquation : S -> VectorXd -> VectorXd
}.

Section Integration.
Context {S : Type} `{DynamicalSystemImpl S}.

(** [DynamicalSystem::integrateStepEuler] *)
Definition integrateStepEuler (s : S) (dt : R) (x : VectorXd)
    : VectorXd * VectorXd :=
  let xd_updated := differentialEquation s x in
  let x_updated := x +v dt *v xd_updated in
  (x_updated, xd_updated).

(** [DynamicalSystem::integrateStepRungeKutta] *)
Definition integrateStepRungeKutta (s : S) (dt : R) (x : VectorXd)
    : VectorXd * VectorXd :=
  let k1 := differentialEquation s x in
  let input_k2 := x +v (dt * 0.5) *v k1 in
  let k2 := differentialEquation s input_k2 in
  let input_k3 := x +v (dt * 0.5) *v k2 in
  let k3 := differentialEquation s input_k3 in
  let input_k4 := x +v dt *v k3 in
  let k4 := differentialEquation s input_k4 in
  let x_updated := x +v (dt *v (k1 +v 2.0 *v (k2 +v k3) +v k4)) /v 6.0 in
  let xd_updated := differentialEquation s x_updated in
  (x_updated, xd_updated).

(** [DynamicalSystem::integrateStep] *)
Definition integrateStep (s : S) (dt : R) (x : VectorXd)
    : outcome (VectorXd * VectorXd) :=
  _ <- assert (if Rlt_dec 0.0 dt then true else false) ;;
  _ <- assert (Nat.eqb (length x) (dim_ (base s))) ;;
  match integration_method_ (base s) with
  | RUNGE_KUTTA => Returns (integrateStepRungeKutta s dt x)
  | EULER => Returns (integrateStepEuler s dt x)
  end.
End Integration.

(* ================================================================== *)
(** * nlohmann::json documents *)
(* ================================================================== *)

#[warnings="-register-all"] Inductive json : Type :=
| JNull
| JBool (b : bool)
| JInt (z : Z)
| JFloat (r : R)
| JString (s : string)
| JArray (elems : list json)
| JObject (members : list (string * json)).

Fixpoint find_member (k : string) (ms : list (string * json)) : option json :=
  match ms with
  | [] => None
  | (k', v) :: ms' => if String.eqb k k' then Some v else find_member k ms'
  end.

(** Insert, or overwrite the value of an existing key. *)
Fixpoint set_member (k : string) (v : json) (ms : list (string * json))
    : list (string * json) :=
  match ms with
  | [] => [(k, v)]
  | (k', v') :: ms' =>
      if String.eqb k k' then (k, v) :: ms' else (k', v') :: set_member k v ms'
  end.

(** [j.at(key)] *)
Definition json_at (j : json) (key : string) : outcome json :=
  match j with
  | JObject ms =>
      match find_member key ms with
      | Some v => Returns v
      | None => Throws (out_of_range key)
      end
  | _ => Throws type_error
  end.

(** [j.contains(key)] *)
Definition json_contains (j : json) (key : string) : bool :=
  match j with
  | JObject ms => match find_member key ms with Some _ => true | None => false end
  | _ => false
  end.

(** [j[key] = v]: a null value silently becomes an object. *)
Definition json_set (j : json) (key : string) (v : json) : outcome json :=
  match j with
  | JNull => Returns (JObject [(key, v)])
  | JObject ms => Returns (JObject (set_member key v ms))
  | _ => Throws type_error
  end.

(** [j[key]] read on a non-const value: a missing key reads as null. *)
Definition json_index (j : json) (key : string) : outcome json :=
  match j with
  | JNull => Returns JNull
  | JObject ms =>
      match find_member key ms with
      | Some v => Returns v
      | None => Returns JNull
      end
  | _ => Throws type_error
  end.

(** [j.get<std::string>()] *)
Definition get_string (j : json) : outcome string :=
  match j with
  | JString s => Returns s
  | _ => Throws type_error
  end.

(** [j.get<double>()] *)
Definition get_double (j : json) : outcome R :=
  match j with
  | JFloat r => Returns r
  | JInt z => Returns (IZR z)
  | _ => Throws type_error
  end.

Fixpoint mapM {A B : Type} (f : A -> outcome B) (l : list A) : outcome (list B) :=
  match l with
  | [] => Returns []
  | a :: l' => b <- f a ;; bs <- mapM f l' ;; Returns (b :: bs)
  end.

(** Modelled from the spec: [from_json_to_double] of
    [eigenutils/eigen_json.hpp], which is not part of the sources; the
    document format stores [tau_] and the variant fields as one number. *)
Definition from_json_to_double (j : json) : outcome R := get_double j.

(** Modelled from the spec: the conversion of a JSON value to
    [Eigen::VectorXd] of [eigenutils/eigen_json.hpp]; the document format
    gives a vector as ["values": [float, ...]]. *)
Definition VectorXd_from_json (j : json) : outcome VectorXd :=
  match j with
  | JArray elems => mapM get_double elems
  | _ => Throws type_error
  end.

(** Modelled from the spec: the conversion of [Eigen::VectorXd] to JSON of
    [eigenutils/eigen_json.hpp]; the document format gives a vector as
    [{"values": [float, ...]}]. *)
Definition VectorXd_to_json (v : VectorXd) : json :=
  JObject [("values"%string, JArray (map JFloat v))].

(** Modelled from the spec: the conversion of a JSON value to
    [Eigen::MatrixXd] of [eigen/eigen_json.hpp]; the document format gives
    centers and widths as ["values": [[float,...], ...]] and the weights
    as ["values": [float, ...]], one column. *)
Definition MatrixXd_from_json (j : json) : outcome MatrixXd :=
  match j with
  | JArray [] => Returns (mkMatrixXd 0 0 [])
  | JArray ((JArray first :: _) as elems) =>
      rs <- mapM VectorXd_from_json elems ;;
      Returns (mkMatrixXd (length elems) (length first) rs)
  | JArray elems =>
      col <- mapM get_double elems ;;
      Returns (mkMatrixXd (length elems) 1 (map (fun a => [a]) col))
  | _ => Throws type_error
  end.

(** Modelled from the spec: the conversion of [Eigen::MatrixXd] to JSON of
    [eigen/eigen_json.hpp]: [{"values": [[float,...], ...]}]. *)
Definition MatrixXd_to_json (M : MatrixXd) : json :=
  JObject [("values"%string,
            JArray (map (fun r => JArray (map JFloat r)) (coeffs M)))].

(* ================================================================== *)
(** * ExponentialSystem.cpp *)
(* ================================================================== *)

(** An [ExponentialSystem] is a [DynamicalSystem] with the decay constant
    [alpha_].  The member [attractor_state_prealloc_] is scratch memory:
    [differentialEquation] writes it before it reads it. *)
Record ExponentialSystem : Type := mkExponentialSystem {
  as_DynamicalSystem : DynamicalSystem;
  alpha_ : R
}.

(** [ExponentialSystem::ExponentialSystem(tau, y_init, y_attr, alpha)] *)
Definition ExponentialSystem_ctor (tau : R) (y_init y_attr : VectorXd)
    (alpha : R) : outcome ExponentialSystem :=
  b <- DynamicalSystem_ctor 1 tau y_init y_attr ;;
  Returns {| as_DynamicalSystem := b; alpha_ := alpha |}.

(** [ExponentialSystem::differentialEquation] *)
Definition ExponentialSystem_differentialEquation
    (s : ExponentialSystem) (x : VectorXd) : VectorXd :=
  let attractor_state_prealloc_ := attractor_state_ (as_DynamicalSystem s) in
  (alpha_ s *v (attractor_state_prealloc_ -v x)) /v tau_ (as_DynamicalSystem s).

#[export] Instance ExponentialSystem_impl : DynamicalSystemImpl ExponentialSystem :=
  {| base := as_DynamicalSystem;
     differentialEquation := ExponentialSystem_differentialEquation |}.

(** [ExponentialSystem::analyticalSolution(ts, xs, xds)]: [xs] and [xds]
    are in-out arguments; the pair of their final values is returned. *)
Definition analyticalSolution (s : ExponentialSystem) (ts : VectorXd)
    (xs xds : MatrixXd) : outcome (MatrixXd * MatrixXd) :=
  let d := as_DynamicalSystem s in
  let T := length ts in
  _ <- assert (Nat.ltb 0 T) ;;
  let caller_expects_transposed :=
    Nat.eqb (rows xs) (dim_ d) && Nat.eqb (cols xs) T in
  let xs := resize xs T (dim_ d) in
  let xds := resize xds T (dim_ d) in
  let val_range := initial_state_ d -v attractor_state_ d in
  let exp_term := (- alpha_ s) *v ts /v tau_ d in
  let exp_term := map exp exp_term in
  let pos_scale := exp_term in
  let vel_scale := (- (alpha_ s / tau_ d)) *v exp_term in
  let xs := cwiseProduct (replicate_row val_range T)
                         (replicate_col pos_scale (dim_ d)) in
  let xs := madd xs (replicate_row (attractor_state_ d) T) in
  let xds := cwiseProduct (replicate_row val_range T)
                          (replicate_col vel_scale (dim_ d)) in
  if caller_expects_transposed
  then Returns (transposeInPlace xs, transposeInPlace xds)
  else Returns (xs, xds).

(** [from_json(const nlohmann::json&, ExponentialSystem*&)] *)
Definition ExponentialSystem_from_json (j : json) : outcome ExponentialSystem :=
  jt <- json_at j "tau_" ;;
  tau <- from_json_to_double jt ;;
  ja <- json_at j "alpha_" ;;
  alpha <- from_json_to_double ja ;;
  ji <- json_at j "initial_state_" ;;
  jiv <- json_at ji "values" ;;
  y_init <- VectorXd_from_json jiv ;;
  jg <- json_at j "attractor_state_" ;;
  jgv <- json_at jg "values" ;;
  y_attr <- VectorXd_from_json jgv ;;
  ExponentialSystem_ctor tau y_init y_attr alpha.

(** [DynamicalSystem::to_json_base] *)
Definition to_json_base (d : DynamicalSystem) (j : json) : outcome json :=
  j <- json_set j "dim_" (JInt (Z.of_nat (dim_ d))) ;;
  j <- json_set j "dim_orig_" (JInt (Z.of_nat (dim_orig_ d))) ;;
  j <- json_set j "tau_" (JFloat (tau_ d)) ;;
  j <- json_set j "initial_state_" (VectorXd_to_json (initial_state_ d)) ;;
  j <- json_set j "attractor_state_" (VectorXd_to_json (attractor_state_ d)) ;;
  j <- json_set j "integration_method_"
         (JString match integration_method_ d with
                  | EULER => "EULER"
                  | RUNGE_KUTTA => "RUNGE_KUTTA"
                  end) ;;
  let c := "DynamicalSystem"%string in
  json_set j "py/object" (JString ("dynamicalsystems." ++ c ++ "." ++ c)).

(** [ExponentialSystem::to_json_helper] *)
Definition ExponentialSystem_to_json_helper (s : ExponentialSystem) (j : json)
    : outcome json :=
  j <- to_json_base (as_DynamicalSystem s) j ;;
  j <- json_set j "alpha_" (JFloat (alpha_ s)) ;;
  let c := "ExponentialSystem"%string in
  json_set j "py/object" (JString ("dynamicalsystems." ++ c ++ "." ++ c)).

(* ================================================================== *)
(** * SpringDamperSystem.hpp *)
(* ================================================================== *)

(** Value asking for a critically damped spring constant. *)
Definition CRITICALLY_DAMPED : R := - 1.0.

(** The data members the header declares (the vectors [y_], [z_], [yd_],
    [zd_], [y_attr_] are scratch memory). *)
Record SpringDamperSystem : Type := mkSpringDamperSystem {
  sd_as_DynamicalSystem : DynamicalSystem;
  damping_coefficient_ : R;
  spring_constant_ : R;
  mass_ : R
}.

(* ================================================================== *)
(** * Polymorphic deserialisation (DynamicalSystem.cpp) *)
(* ================================================================== *)

(** [haystack.find(needle)]; [None] is [std::string::npos]. *)
Definition string_find (haystack needle : string) : option nat :=
  String.index 0 needle haystack.

(** [haystack.find(needle) != string::npos] *)
Definition found (haystack needle : string) : bool :=
  match string_find haystack needle with
  | Some _ => true
  | None => false
  end.

(** [endl] *)
Definition endl : string := String (ascii_of_nat 10) EmptyString.

Section PolymorphicDeserialization.
(** The classes [SigmoidSystem] and [TimeSystem] and the [from_json]
    overloads of the three variants other than [ExponentialSystem] are
    defined in files outside the sources; so is the path [__FILE__] the
    translation unit is compiled under. *)
Variable SigmoidSystem : Type.
Variable TimeSystem : Type.
Variable SigmoidSystem_from_json : json -> outcome SigmoidSystem.
Variable SpringDamperSystem_from_json : json -> outcome SpringDamperSystem.
Variable TimeSystem_from_json : json -> outcome TimeSystem.
Variable FILE : string.

(** What a [DynamicalSystem*] can point to. *)
Inductive DynamicalSystemPtr : Type :=
| NULL
| ptr_ExponentialSystem (obj : ExponentialSystem)
| ptr_SigmoidSystem (obj : SigmoidSystem)
| ptr_SpringDamperSystem (obj : SpringDamperSystem)
| ptr_TimeSystem (obj : TimeSystem).

(** [from_json(const nlohmann::json& j, DynamicalSystem*& obj)]: the
    final [obj] (or the exception), and what was written to [cerr]. *)
Definition from_json (j : json) : outcome DynamicalSystemPtr * string :=
  match (c <- json_at j "py/object" ;; get_string c) with
  | Returns class_name =>
      if found class_name "ExponentialSystem" then
        (obj <- ExponentialSystem_from_json j ;;
         Returns (ptr_ExponentialSystem obj), EmptyString)
      else if found class_name "SigmoidSystem" then
        (obj <- SigmoidSystem_from_json j ;;
         Returns (ptr_SigmoidSystem obj), EmptyString)
      else if found class_name "SpringDamperSystem" then
        (obj <- SpringDamperSystem_from_json j ;;
         Returns (ptr_SpringDamperSystem obj), EmptyString)
      else if found class_name "TimeSystem" then
        (obj <- TimeSystem_from_json j ;;
         Returns (ptr_TimeSystem obj), EmptyString)
      else
        (Returns NULL,
         FILE ++ ":" ++ "153" ++ ":" ++
         "Unknown DynamicalSystem: " ++ class_name ++ endl)%string
  | Throws e => (Throws e, EmptyString)
  | AssertionFailed => (AssertionFailed, EmptyString)
  | NullDereference => (NullDereference, EmptyString)
  end.
End PolymorphicDeserialization.
Arguments NULL {SigmoidSystem TimeSystem}.
Arguments ptr_ExponentialSystem {SigmoidSystem TimeSystem} obj.
Arguments ptr_SigmoidSystem {SigmoidSystem TimeSystem} obj.
Arguments ptr_SpringDamperSystem {SigmoidSystem TimeSystem} obj.
Arguments ptr_TimeSystem {SigmoidSystem TimeSystem} obj.

(* ================================================================== *)
(** * Kernel activations *)
(* ================================================================== *)

(** Sum of [g 0 .. g (n-1)]. *)
Definition sum_upto (n : nat) (g : nat -> R) : R := vsum (map g (seq 0 n)).

(** Modelled from the spec: one coefficient of the activation matrix of
    [BasisFunction::Gaussian::activations],
    [exp(-0.5 * sum_d ((inputs[t][d]-centers[b][d])/widths[b][d])^2)]. *)
Definition gaussian_kernel (centers widths inputs : MatrixXd) (t b : nat) : R :=
  exp (- 0.5 *
       sum_upto (cols centers)
         (fun d => ((coeff inputs t d - coeff centers b d) / coeff widths b d) ^ 2)).

(** Modelled from the spec: [BasisFunction::Gaussian::activations] of
    [functionapproximators/BasisFunction.cpp], which is not part of the
    sources, for [asymmetric_kernels == false] (the only value [predict]
    passes; the spec leaves the asymmetric kernel open).  The result has
    one row per input row and one column per basis function; with
    [normalized_basis_functions] each row is divided by its sum. *)
Definition Gaussian_activations (centers widths inputs : MatrixXd)
    (normalized_basis_functions : bool) : MatrixXd :=
  let n_basis_functions := rows centers in
  mat_of_fun (rows inputs) n_basis_functions
    (fun t b =>
       if normalized_basis_functions
       then gaussian_kernel centers widths inputs t b /
            sum_upto n_basis_functions (gaussian_kernel centers widths inputs t)
       else gaussian_kernel centers widths inputs t b).

(** [M(index)] on a matrix: the coefficient at [index] in column-major
    storage order. *)
Definition linear_coeff (M : MatrixXd) (index : nat) : R :=
  coeff M (index mod rows M) (index / rows M).

(** [MatrixXd(r, c)]: freshly allocated; the coefficients are unspecified
    and are written before they are read. *)
Definition MatrixXd_alloc (r c : nat) : MatrixXd := mat_of_fun r c (fun _ _ => 0).

(* ================================================================== *)
(** * FunctionApproximatorRBFN.cpp, the revision that holds the
      centers, widths and weights itself *)
(* ================================================================== *)

Module RBFN.

Record FunctionApproximatorRBFN : Type := mkFunctionApproximatorRBFN {
  n_basis_functions_ : nat;
  centers_ : MatrixXd;
  widths_ : MatrixXd;
  weights_ : MatrixXd;
  activations_one_prealloc_ : MatrixXd   (* mutable scratch memory *)
}.

(** [FunctionApproximatorRBFN::FunctionApproximatorRBFN(centers, widths,
    weights)] *)
Definition ctor (centers widths weights : MatrixXd)
    : outcome FunctionApproximatorRBFN :=
  let n_basis_functions := rows centers in
  _ <- assert (Nat.eqb n_basis_functions (rows widths)) ;;
  _ <- assert (Nat.eqb n_basis_functions (rows weights)) ;;
  _ <- assert (Nat.eqb (cols centers) (cols widths)) ;;
  _ <- assert (Nat.eqb (cols weights) 1) ;;
  Returns {| n_basis_functions_ := n_basis_functions;
             centers_ := centers;
             widths_ := widths;
             weights_ := weights;
             activations_one_prealloc_ := MatrixXd_alloc 1 n_basis_functions |}.

(** [for (int b=0; b<n_basis_functions_; b++)
       activations.col(b).array() *= weights_(b);] *)
Definition weigh_columns (n_basis_functions : nat) (weights : MatrixXd)
    (activations : MatrixXd) : MatrixXd :=
  fold_left (fun A b => scale_col A b (linear_coeff weights b))
            (seq 0 n_basis_functions) activations.

(** [FunctionApproximatorRBFN::predict(inputs, outputs)]: the method is
    [const] but writes the mutable scratch member, so the object is
    returned along with [outputs]. *)
Definition predict (this : FunctionApproximatorRBFN) (inputs : MatrixXd)
    : FunctionApproximatorRBFN * MatrixXd :=
  let n_time_steps := rows inputs in
  if Nat.eqb n_time_steps 1 then
    let activations_one :=
      Gaussian_activations (centers_ this) (widths_ this) inputs false in
    let activations_one :=
      weigh_columns (n_basis_functions_ this) (weights_ this) activations_one in
    let outputs := rowwise_sum activations_one in
    ({| n_basis_functions_ := n_basis_functions_ this;
        centers_ := centers_ this;
        widths_ := widths_ this;
        weights_ := weights_ this;
        activations_one_prealloc_ := activations_one |}, outputs)
  else
    let activations := MatrixXd_alloc n_time_steps (n_basis_functions_ this) in
    let activations :=
      Gaussian_activations (centers_ this) (widths_ this) inputs false in
    let activations :=
      weigh_columns (n_basis_functions_ this) (weights_ this) activations in
    let outputs := rowwise_sum activations in
    (this, outputs).

(** [FunctionApproximatorRBFN::from_jsonpickle] *)
Definition from_jsonpickle (json : json) : outcome FunctionApproximatorRBFN :=
  j <- json_at json "_model_params" ;;
  jc <- json_at j "centers" ;;
  jcv <- json_at jc "values" ;;
  centers <- MatrixXd_from_json jcv ;;
  jw <- json_at j "widths" ;;
  jwv <- json_at jw "values" ;;
  widths <- MatrixXd_from_json jwv ;;
  jg <- json_at j "weights" ;;
  jgv <- json_at jg "values" ;;
  weights <- MatrixXd_from_json jgv ;;
  ctor centers widths weights.

(** [to_json(nlohmann::json& j, const FunctionApproximatorRBFN& obj)] *)
Definition to_json (j : json) (obj : FunctionApproximatorRBFN) : outcome json :=
  j <- json_set j "centers_" (MatrixXd_to_json (centers_ obj)) ;;
  j <- json_set j "widths_" (MatrixXd_to_json (widths_ obj)) ;;
  j <- json_set j "weights_" (MatrixXd_to_json (weights_ obj)) ;;
  json_set j "py/object"
    (JString "dynamicalsystems.ModelParametersRBFN.ModelParametersRBFN").

(** The document [toString] dumps: [nlohmann::json j; to_json(j,*this);] *)
Definition toString_document (this : FunctionApproximatorRBFN) : outcome json :=
  to_json JNull this.

End RBFN.

(* ================================================================== *)
(** * src/functionapproximators/FunctionApproximatorRBFN.cpp, the
      revision that owns a [ModelParametersRBFN] *)
(* ================================================================== *)

Module RBFN_MP.

(** Modelled from the spec: the class [ModelParametersRBFN], whose files
    are not part of the sources: it holds [centers] and [widths]
    (n_basis x n_dims) and [weights] (n_basis x 1). *)
Record ModelParametersRBFN : Type := mkModelParametersRBFN {
  centers : MatrixXd;
  widths : MatrixXd;
  weights : MatrixXd
}.

(** Modelled from the spec: [ModelParametersRBFN::getNumberOfBasisFunctions],
    the number of rows the three matrices share. *)
Definition getNumberOfBasisFunctions (mp : ModelParametersRBFN) : nat :=
  rows (centers mp).

(** Modelled from the spec: [ModelParametersRBFN::weights(VectorXd&)],
    the single column of [weights]. *)
Definition get_weights (mp : ModelParametersRBFN) : VectorXd :=
  map (fun b => coeff (weights mp) b 0) (seq 0 (rows (weights mp))).

(** Modelled from the spec: [ModelParametersRBFN::kernelActivations],
    the kernel activation engine applied to the model's centers and
    widths. *)
Definition kernelActivations (mp : ModelParametersRBFN) (inputs : MatrixXd)
    : MatrixXd :=
  Gaussian_activations (centers mp) (widths mp) inputs false.

(** Modelled from the spec: [ModelParametersRBFN::from_jsonpickle], which
    reads the nested parameters sub-document
    [{"centers": {"values": ..}, "widths": {"values": ..},
      "weights": {"values": ..}}] and returns a pointer to a new object. *)
Definition ModelParametersRBFN_from_jsonpickle (j : json)
    : outcome (option ModelParametersRBFN) :=
  jc <- json_at j "centers" ;;
  jcv <- json_at jc "values" ;;
  c <- MatrixXd_from_json jcv ;;
  jw <- json_at j "widths" ;;
  jwv <- json_at jw "values" ;;
  w <- MatrixXd_from_json jwv ;;
  jg <- json_at j "weights" ;;
  jgv <- json_at jg "values" ;;
  g <- MatrixXd_from_json jgv ;;
  Returns (Some {| centers := c; widths := w; weights := g |}).

(** The pointer member [model_parameters_] is [None] when it is NULL. *)
Record FunctionApproximatorRBFN : Type := mkFunctionApproximatorRBFN {
  model_parameters_ : option ModelParametersRBFN;
  weights_prealloc_ : VectorXd;
  activations_one_prealloc_ : MatrixXd;
  activations_prealloc_ : MatrixXd
}.

(** [p->member]: dereference a pointer. *)
Definition deref {A : Type} (p : option A) : outcome A :=
  match p with
  | Some a => Returns a
  | None => NullDereference
  end.

(** [FunctionApproximatorRBFN::FunctionApproximatorRBFN(model_parameters)]
    with [preallocateMemory] inlined. *)
Definition ctor (model_parameters : option ModelParametersRBFN)
    : outcome FunctionApproximatorRBFN :=
  mp <- deref model_parameters ;;
  let n_basis_functions := getNumberOfBasisFunctions mp in
  Returns {| model_parameters_ := model_parameters;
             weights_prealloc_ := repeat 0 n_basis_functions;
             activations_one_prealloc_ := MatrixXd_alloc 1 n_basis_functions;
             activations_prealloc_ := MatrixXd_alloc 1 n_basis_functions |}.

(** [for (int b=0; b<n_basis_functions; b++)
       activations.col(b).array() *= weights_prealloc_(b);] *)
Definition weigh_columns (n_basis_functions : nat) (weights_prealloc : VectorXd)
    (activations : MatrixXd) : MatrixXd :=
  fold_left (fun A b => scale_col A b (vcoeff weights_prealloc b))
            (seq 0 n_basis_functions) activations.

(** [FunctionApproximatorRBFN::predict(inputs, outputs)]: the scratch
    members are written, so the object is returned along with [outputs]. *)
Definition predict (this : FunctionApproximatorRBFN) (inputs : MatrixXd)
    : outcome (FunctionApproximatorRBFN * MatrixXd) :=
  mp <- deref (model_parameters_ this) ;;
  let weights_prealloc := get_weights mp in
  let n_basis_functions := getNumberOfBasisFunctions mp in
  let only_one_sample := Nat.eqb (rows inputs) 1 in
  if only_one_sample then
    let activations_one := kernelActivations mp inputs in
    let activations_one :=
      weigh_columns n_basis_functions weights_prealloc activations_one in
    let outputs := rowwise_sum activations_one in
    Returns ({| model_parameters_ := model_parameters_ this;
                weights_prealloc_ := weights_prealloc;
                activations_one_prealloc_ := activations_one;
                activations_prealloc_ := activations_prealloc_ this |}, outputs)
  else
    let n_time_steps := rows inputs in
    let activations :=
      resize (activations_prealloc_ this) n_time_steps n_basis_functions in
    let activations := kernelActivations mp inputs in
    let activations :=
      weigh_columns n_basis_functions weights_prealloc activations in
    let outputs := rowwise_sum activations in
    Returns ({| model_parameters_ := model_parameters_ this;
                weights_prealloc_ := weights_prealloc;
                activations_one_prealloc_ := activations_one_prealloc_ this;
                activations_prealloc_ := activations |}, outputs).

(** [FunctionApproximatorRBFN::from_jsonpickle] *)
Definition from_jsonpickle (json : json) : outcome FunctionApproximatorRBFN :=
  model <-
    (if json_contains json "_model_params"
     then jm <- json_index json "_model_params" ;;
          ModelParametersRBFN_from_jsonpickle jm
     else Returns None) ;;
  ctor model.

End RBFN_MP.

(* ================================================================== *)
(** * DynamicalSystem.cpp: starting an integration *)
(* ================================================================== *)

(** [x.fill(c)] *)
Definition fill (x : VectorXd) (c : R) : VectorXd := repeat c (length x).

(** [x.segment(start, n) = v]: Eigen checks that the block lies inside
    [x] (an assertion, like [assert]); [v] has [n] coefficients at the
    one place the code uses it. *)
Definition segment_assign (x : VectorXd) (start n : nat) (v : VectorXd)
    : outcome VectorXd :=
  _ <- assert (Nat.leb (start + n) (length x)) ;;
  Returns (firstn start x ++ v ++ skipn (start + n) x).

(** Modelled from the spec: [set_initial_state] of [DynamicalSystem.hpp]
    (not part of the sources), which sets the initial state. *)
Definition set_initial_state (y_init : VectorXd) (d : DynamicalSystem)
    : DynamicalSystem :=
  {| dim_ := dim_ d; dim_orig_ := dim_orig_ d; tau_ := tau_ d;
     initial_state_ := y_init;
     attractor_state_ := attractor_state_ d;
     integration_method_ := integration_method_ d |}.

Section IntegrationStart.
Context {S : Type} `{DynamicalSystemImpl S}.

(** [DynamicalSystem::integrateStart(x, xd) const]: [x] and [xd] are
    in-out arguments of which only the sizes are read. *)
Definition integrateStart (s : S) (x xd : VectorXd)
    : outcome (VectorXd * VectorXd) :=
  _ <- assert (Nat.eqb (length x) (dim_ (base s))) ;;
  _ <- assert (Nat.eqb (length xd) (dim_ (base s))) ;;
  let x := fill x 0 in
  x <- segment_assign x 0 (length (initial_state_ (base s)))
         (initial_state_ (base s)) ;;
  let xd := differentialEquation s x in
  Returns (x, xd).
End IntegrationStart.

(** [DynamicalSystem::integrateStart(x_init, x, xd)] for an exponential
    system: the initial state is replaced first, so the object is
    returned along with [x] and [xd]. *)
Definition ExponentialSystem_integrateStart_from (s : ExponentialSystem)
    (x_init x xd : VectorXd)
    : outcome (ExponentialSystem * (VectorXd * VectorXd)) :=
  let s' := {| as_DynamicalSystem :=
                 set_initial_state x_init (as_DynamicalSystem s);
               alpha_ := alpha_ s |} in
  r <- integrateStart s' x xd ;;
  Returns (s', r).

(* ================================================================== *)
(** * Notions used to state the properties *)
(* ================================================================== *)

(** The class invariant of a system of the given order:
    [dim == order * dim_orig], and the initial and the attractor state
    both have [dim_orig] coefficients. *)
Definition well_formed (order : nat) (d : DynamicalSystem) : Prop :=
  dim_ d = (order * dim_orig_ d)%nat /\
  length (initial_state_ d) = dim_orig_ d /\
  length (attractor_state_ d) = dim_orig_ d.

(** Is the caller's [xs] buffer of shape [dim] x [T]? *)
Definition dim_major (s : ExponentialSystem) (ts : VectorXd) (xs : MatrixXd)
    : Prop :=
  rows xs = dim_ (as_DynamicalSystem s) /\ cols xs = length ts.

(** The matrices [analyticalSolution] has computed before it looks at
    the orientation the caller wants: [T] x [dim], one row per time. *)
Definition xs_time_major (s : ExponentialSystem) (ts : VectorXd) : MatrixXd :=
  let d := as_DynamicalSystem s in
  madd (cwiseProduct
          (replicate_row (initial_state_ d -v attractor_state_ d) (length ts))
          (replicate_col (map exp ((- alpha_ s) *v ts /v tau_ d)) (dim_ d)))
       (replicate_row (attractor_state_ d) (length ts)).

Definition xds_time_major (s : ExponentialSystem) (ts : VectorXd) : MatrixXd :=
  let d := as_DynamicalSystem s in
  cwiseProduct
    (replicate_row (initial_state_ d -v attractor_state_ d) (length ts))
    (replicate_col
       ((- (alpha_ s / tau_ d)) *v map exp ((- alpha_ s) *v ts /v tau_ d))
       (dim_ d)).

(** The system of the documented example: alpha = 1, tau = 1,
    y_init = [1], y_attr = [0], with the given integration method. *)
Definition unit_decay (m : IntegrationMethod) : ExponentialSystem :=
  {| as_DynamicalSystem :=
       {| dim_ := 1; dim_orig_ := 1; tau_ := 1;
          initial_state_ := [1]; attractor_state_ := [0];
          integration_method_ := m |};
     alpha_ := 1 |}.

(** [needle] occurs somewhere inside [haystack]. *)
Definition contains_substring (haystack needle : string) : Prop :=
  exists before after : string, haystack = (before ++ needle ++ after)%string.

(** The four known variants, in the order [from_json] tests them. *)
Inductive Variant : Type :=
| VExponentialSystem
| VSigmoidSystem
| VSpringDamperSystem
| VTimeSystem.

Definition variant_name (v : Variant) : string :=
  match v with
  | VExponentialSystem => "ExponentialSystem"
  | VSigmoidSystem => "SigmoidSystem"
  | VSpringDamperSystem => "SpringDamperSystem"
  | VTimeSystem => "TimeSystem"
  end.

Definition variant_rank (v : Variant) : nat :=
  match v with
  | VExponentialSystem => 0
  | VSigmoidSystem => 1
  | VSpringDamperSystem => 2
  | VTimeSystem => 3
  end.

(** The discriminator of a document: [j.at("py/object").get<string>()]. *)
Definition discriminator (j : json) : outcome string :=
  c <- json_at j "py/object" ;; get_string c.

Section Construct.
Variable SigmoidSystem : Type.
Variable TimeSystem : Type.
Variable SigmoidSystem_from_json : json -> outcome SigmoidSystem.
Variable SpringDamperSystem_from_json : json -> outcome SpringDamperSystem.
Variable TimeSystem_from_json : json -> outcome TimeSystem.

(** [obj = j.get<V*>()] for the class [V] of a variant. *)
Definition construct (v : Variant) (j : json)
    : outcome (DynamicalSystemPtr SigmoidSystem TimeSystem) :=
  match v with
  | VExponentialSystem =>
      obj <- ExponentialSystem_from_json j ;; Returns (ptr_ExponentialSystem obj)
  | VSigmoidSystem =>
      obj <- SigmoidSystem_from_json j ;; Returns (ptr_SigmoidSystem obj)
  | VSpringDamperSystem =>
      obj <- SpringDamperSystem_from_json j ;; Returns (ptr_SpringDamperSystem obj)
  | VTimeSystem =>
      obj <- TimeSystem_from_json j ;; Returns (ptr_TimeSystem obj)
  end.
End Construct.

(** What the constructor of the approximator asserts about its
    matrices. *)
Definition RBFN_consistent (fa : RBFN.FunctionApproximatorRBFN) : Prop :=
  RBFN.n_basis_functions_ fa = rows (RBFN.centers_ fa) /\
  rows (RBFN.widths_ fa) = rows (RBFN.centers_ fa) /\
  rows (RBFN.weights_ fa) = rows (RBFN.centers_ fa) /\
  cols (RBFN.widths_ fa) = cols (RBFN.centers_ fa) /\
  cols (RBFN.weights_ fa) = 1%nat.

(** [outputs[t] = sum_b activations[t][b] * weights[b]] for the
    activations of [inputs] against the given centers and widths. *)
Definition weighted_activation_sum (centers widths : MatrixXd)
    (weight : nat -> R) (inputs : MatrixXd) (t : nat) : R :=
  sum_upto (rows centers)
    (fun b => coeff (Gaussian_activations centers widths inputs false) t b *
              weight b).

(** The terms of the series of [exp]. *)
Definition inv_fact (i : nat) : R := / INR (fact i).

(* ================================================================== *)
(** * Further notions: trajectories, documents, weights *)
(* ================================================================== *)

(** The coefficient of a matrix returned by [analyticalSolution] that
    belongs to coordinate [i] at time [ts(t)]: row [t], column [i], or
    the other way round when the caller's [xs] was dim-major. *)
Definition entry (s : ExponentialSystem) (ts : VectorXd) (xs0 M : MatrixXd)
    (t i : nat) : R :=
  if Nat.eqb (rows xs0) (dim_ (as_DynamicalSystem s)) &&
     Nat.eqb (cols xs0) (length ts)
  then coeff M i t else coeff M t i.

(** [n] successive calls of [integrateStep] with the same [dt], each on
    the state the previous call returned; the last state and derivative. *)
Fixpoint iterate_integrateStep {S : Type} `{DynamicalSystemImpl S}
    (s : S) (dt : R) (n : nat) (x xd : VectorXd)
    : outcome (VectorXd * VectorXd) :=
  match n with
  | O => Returns (x, xd)
  | Datatypes.S n' =>
      r <- integrateStep s dt x ;;
      iterate_integrateStep s dt n' (fst r) (snd r)
  end.

(** The factor by which one step of size [h = dt alpha / tau] multiplies
    the distance to the attractor. *)
Definition step_factor (m : IntegrationMethod) (h : R) : R :=
  match m with
  | EULER => 1 - h
  | RUNGE_KUTTA => 1 - h + h ^ 2 / 2 - h ^ 3 / 6 + h ^ 4 / 24
  end.

(** The members [ExponentialSystem::to_json_helper] writes. *)
Definition exponential_member (s : ExponentialSystem) (key : string)
    : option json :=
  let d := as_DynamicalSystem s in
  if String.eqb key "dim_" then Some (JInt (Z.of_nat (dim_ d)))
  else if String.eqb key "dim_orig_" then Some (JInt (Z.of_nat (dim_orig_ d)))
  else if String.eqb key "tau_" then Some (JFloat (tau_ d))
  else if String.eqb key "initial_state_"
       then Some (VectorXd_to_json (initial_state_ d))
  else if String.eqb key "attractor_state_"
       then Some (VectorXd_to_json (attractor_state_ d))
  else if String.eqb key "integration_method_"
       then Some (JString match integration_method_ d with
                          | EULER => "EULER"
                          | RUNGE_KUTTA => "RUNGE_KUTTA"
                          end)
  else if String.eqb key "alpha_" then Some (JFloat (alpha_ s))
  else if String.eqb key "py/object"
       then Some (JString "dynamicalsystems.ExponentialSystem.ExponentialSystem")
  else None.

(** The approximator with other weights and the same centers and widths. *)
Definition with_weights (fa : RBFN.FunctionApproximatorRBFN)
    (weights : MatrixXd) : RBFN.FunctionApproximatorRBFN :=
  {| RBFN.n_basis_functions_ := RBFN.n_basis_functions_ fa;
     RBFN.centers_ := RBFN.centers_ fa;
     RBFN.widths_ := RBFN.widths_ fa;
     RBFN.weights_ := weights;
     RBFN.activations_one_prealloc_ := RBFN.activations_one_prealloc_ fa |}.

(** The sum g(0) + ... + g(n-1) of the specification, by recursion on
    the number of terms. *)
Fixpoint sigma (n : nat) (g : nat -> R) : R :=
  match n with
  | O => 0
  | Datatypes.S n' => sigma n' g + g n'
  end.

(** The response of basis function [b] to the input [x], as the
    specification writes it:
    exp(-0.5 sum_d ((x[d] - centers[b][d]) / widths[b][d])^2). *)
Definition gaussian_response (centers widths : MatrixXd) (x : VectorXd)
    (b : nat) : R :=
  exp (- 0.5 *
       sigma (cols centers)
         (fun d => ((vcoeff x d - coeff centers b d) / coeff widths b d) ^ 2)).

(** A two-dimensional exponential system: alpha = 1, tau = 1,
    y_init = [1; 2], y_attr = [0; 0]. *)
Definition planar_decay : ExponentialSystem :=
  {| as_DynamicalSystem :=
       {| dim_ := 2; dim_orig_ := 2; tau_ := 1;
          initial_state_ := [1; 2]; attractor_state_ := [0; 0];
          integration_method_ := RUNGE_KUTTA |};
     alpha_ := 1 |}.




(** [c * M] *)
Definition mscale (c : R) (M : MatrixXd) : MatrixXd :=
  mat_of_fun (rows M) (cols M) (fun i j => c * coeff M i j).

(* ================================================================== *)
(** * Properties *)
(* ================================================================== *)

(** ** Vectors *)

Lemma cwiseBinary_length op (a b : VectorXd) :
  length (cwiseBinary op a b) = Nat.min (length a) (length b).
Proof.
  revert b; induction a as [|x a IH]; intros [|y b]; simpl; auto.
Qed.

Lemma cwiseBinary_length_same op (a b : VectorXd) :
  length a = length b -> length (cwiseBinary op a b) = length a.
Proof. intros E; rewrite cwiseBinary_length, <- E; apply Nat.min_id. Qed.

Lemma vcoeff_cwiseBinary op (a b : VectorXd) i :
  (i < length a)%nat -> (i < length b)%nat ->
  vcoeff (cwiseBinary op a b) i = op (vcoeff a i) (vcoeff b i).
Proof.
  unfold vcoeff; revert b i; induction a as [|x a IH]; intros [|y b] [|i];
    simpl; intros Ha Hb; try lia; auto.
  apply IH; lia.
Qed.

Lemma smul_length c v : length (c *v v) = length v.
Proof. apply length_map. Qed.

Lemma sdiv_length v c : length (v /v c) = length v.
Proof. apply length_map. Qed.

Lemma vcoeff_map (g : R -> R) v i :
  (i < length v)%nat -> vcoeff (map g v) i = g (vcoeff v i).
Proof.
  unfold vcoeff; revert i; induction v as [|a v IH]; intros [|i]; simpl;
    intros Hi; try lia; auto.
  apply IH; lia.
Qed.

Lemma vcoeff_smul c v i : (i < length v)%nat -> vcoeff (c *v v) i = c * vcoeff v i.
Proof. apply vcoeff_map. Qed.

Lemma vcoeff_sdiv c v i : (i < length v)%nat -> vcoeff (v /v c) i = vcoeff v i / c.
Proof. apply (vcoeff_map (fun a => a / c)). Qed.

Lemma vadd_length a b : length a = length b -> length (a +v b) = length a.
Proof. apply cwiseBinary_length_same. Qed.

Lemma vsub_length a b : length a = length b -> length (a -v b) = length a.
Proof. apply cwiseBinary_length_same. Qed.

Lemma vcoeff_vadd a b i :
  (i < length a)%nat -> (i < length b)%nat ->
  vcoeff (a +v b) i = vcoeff a i + vcoeff b i.
Proof. apply vcoeff_cwiseBinary. Qed.

Lemma vcoeff_vsub a b i :
  (i < length a)%nat -> (i < length b)%nat ->
  vcoeff (a -v b) i = vcoeff a i - vcoeff b i.
Proof. apply vcoeff_cwiseBinary. Qed.

(** Sizes of vector expressions whose operands have equal sizes. *)
Ltac vlen :=
  repeat match goal with
  | |- context [length (_ *v _)] => rewrite smul_length
  | |- context [length (_ /v _)] => rewrite sdiv_length
  | |- context [length (_ +v _)] => rewrite vadd_length by vlen
  | |- context [length (_ -v _)] => rewrite vsub_length by vlen
  | |- context [length (map _ _)] => rewrite length_map
  end; try lia; try congruence.


(** The integrator groups the two middle slopes; distributing the factor
    over them gives the textbook sum. *)
Lemma middle_slopes_distribute c (k1 k2 k3 k4 : VectorXd) :
  k1 +v c *v (k2 +v k3) +v k4 = k1 +v c *v k2 +v c *v k3 +v k4.
Proof.
  unfold vadd, smul.
  revert k2 k3 k4; induction k1 as [|a k1 IH]; intros k2 k3 k4; [reflexivity|].
  destruct k2 as [|b k2]; [reflexivity|].
  destruct k3 as [|d k3]; [reflexivity|].
  destruct k4 as [|e k4]; [reflexivity|].
  simpl; f_equal; [ring | apply IH].
Qed.

(** ** Outcomes *)

Lemma assert_true_bind {B} b (k : unit -> outcome B) :
  b = true -> (x <- assert b ;; k x) = k tt.
Proof. now intros ->. Qed.

Lemma assert_false_bind {B} b (k : unit -> outcome B) :
  b = false -> (x <- assert b ;; k x) = AssertionFailed.
Proof. now intros ->. Qed.

Lemma Rlt_dec_true a b : a < b -> (if Rlt_dec a b then true else false) = true.
Proof. intros; destruct (Rlt_dec a b); [reflexivity | contradiction]. Qed.

Lemma Rlt_dec_false a b : ~ a < b -> (if Rlt_dec a b then true else false) = false.
Proof. intros; destruct (Rlt_dec a b); [contradiction | reflexivity]. Qed.

(** ** Numerical integration *)

Section IntegrationProperties.
Context {S : Type} `{DynamicalSystemImpl S}.
Variable s : S.
Let f := differentialEquation s.

(** The two assertions of [integrateStep] hold exactly on [dt > 0] and
    [x.size() == dim()]. *)
Lemma integrateStep_checked dt x :
  0 < dt -> length x = dim_ (base s) ->
  integrateStep s dt x =
    match integration_method_ (base s) with
    | RUNGE_KUTTA => Returns (integrateStepRungeKutta s dt x)
    | EULER => Returns (integrateStepEuler s dt x)
    end.
Proof.
  intros Hdt Hx; unfold integrateStep.
  rewrite assert_true_bind by (apply Rlt_dec_true; lra).
  rewrite assert_true_bind by (now apply Nat.eqb_eq).
  reflexivity.
Qed.

Lemma integrateStep_rejects dt x :
  ~ (0 < dt /\ length x = dim_ (base s)) ->
  integrateStep s dt x = AssertionFailed.
Proof.
  intros Hn; unfold integrateStep.
  destruct (Rlt_dec 0 dt) as [Hdt|Hdt].
  - rewrite assert_true_bind by (apply Rlt_dec_true; lra).
    apply assert_false_bind, Nat.eqb_neq; intros E; apply Hn; split; auto.
  - apply assert_false_bind, Rlt_dec_false; lra.
Qed.

(** C1: with the RUNGE_KUTTA method, a positive [dt] and a state of size
    [dim], [integrateStep] evaluates the derivative at the four stages
    k1 = f(x), k2 = f(x + dt/2 k1), k3 = f(x + dt/2 k2), k4 = f(x + dt k3),
    returns x + dt (k1 + 2 k2 + 2 k3 + k4) / 6 and the derivative
    recomputed at that new state; coefficient by coefficient when the
    derivative has the size of the state. *)
Theorem C1_integrateStep_runge_kutta dt x :
  integration_method_ (base s) = RUNGE_KUTTA ->
  0 < dt -> length x = dim_ (base s) ->
  let k1 := f x in
  let k2 := f (x +v (dt / 2) *v k1) in
  let k3 := f (x +v (dt / 2) *v k2) in
  let k4 := f (x +v dt *v k3) in
  let x_updated := x +v (dt *v (k1 +v 2 *v k2 +v 2 *v k3 +v k4)) /v 6 in
  integrateStep s dt x = Returns (x_updated, f x_updated) /\
  ((forall v, length v = dim_ (base s) -> length (f v) = dim_ (base s)) ->
   length x_updated = dim_ (base s) /\
   forall i, (i < dim_ (base s))%nat ->
     vcoeff x_updated i =
     vcoeff x i +
     dt * (vcoeff k1 i + 2 * vcoeff k2 i + 2 * vcoeff k3 i + vcoeff k4 i) / 6).
Proof.
  intros Hm Hdt Hx k1 k2 k3 k4 x_updated.
  assert (Hhalf : dt * 0.5 = dt / 2) by lra.
  assert (Htwo : 2.0 = 2) by lra.
  assert (Hsix : 6.0 = 6) by lra.
  split.
  - rewrite integrateStep_checked, Hm by assumption.
    unfold integrateStepRungeKutta.
    rewrite Hhalf, Htwo, Hsix, middle_slopes_distribute.
    reflexivity.
  - intros Hf.
    assert (L1 : length k1 = length x) by (rewrite Hx; apply Hf; exact Hx).
    assert (L2 : length k2 = length x) by (rewrite Hx; apply Hf; vlen).
    assert (L3 : length k3 = length x) by (rewrite Hx; apply Hf; vlen).
    assert (L4 : length k4 = length x) by (rewrite Hx; apply Hf; vlen).
    split; [unfold x_updated; vlen|].
    intros i Hi. rewrite <- Hx in Hi. unfold x_updated.
    rewrite vcoeff_vadd, vcoeff_sdiv, vcoeff_smul by vlen.
    rewrite !vcoeff_vadd, !vcoeff_smul by vlen.
    reflexivity.
Qed.

(** C2: with the EULER method, [integrateStep] checks [dt > 0] and
    [x.size() == dim()] first (an assertion fails otherwise) and then
    returns x + dt f(x) together with f(x). *)
Theorem C2_integrateStep_euler dt x :
  integration_method_ (base s) = EULER ->
  (0 < dt -> length x = dim_ (base s) ->
   integrateStep s dt x = Returns (integrateStepEuler s dt x) /\
   integrateStep s dt x = Returns (x +v dt *v f x, f x) /\
   ((forall v, length v = dim_ (base s) -> length (f v) = dim_ (base s)) ->
    forall i, (i < dim_ (base s))%nat ->
      vcoeff (x +v dt *v f x) i = vcoeff x i + dt * vcoeff (f x) i)) /\
  (~ (0 < dt /\ length x = dim_ (base s)) ->
   integrateStep s dt x = AssertionFailed).
Proof.
  intros Hm; split.
  - intros Hdt Hx.
    rewrite integrateStep_checked, Hm by assumption.
    repeat split.
    intros Hf i Hi. rewrite <- Hx in Hi.
    assert (L : length (f x) = length x) by (rewrite Hx; apply Hf; exact Hx).
    rewrite vcoeff_vadd, vcoeff_smul by vlen.
    reflexivity.
  - apply integrateStep_rejects.
Qed.

End IntegrationProperties.

(** ** Matrices *)

Lemma nth_map_seq {A} (g : nat -> A) n i d :
  (i < n)%nat -> nth i (map g (seq 0 n)) d = g i.
Proof.
  intros Hi.
  rewrite (nth_indep _ d (g 0%nat)) by (rewrite length_map, length_seq; exact Hi).
  rewrite map_nth, seq_nth by exact Hi. reflexivity.
Qed.

Lemma coeff_mat_of_fun r c g i j :
  (i < r)%nat -> (j < c)%nat -> coeff (mat_of_fun r c g) i j = g i j.
Proof.
  intros Hi Hj; unfold coeff, mat_of_fun; simpl.
  rewrite (nth_map_seq (fun i => map (fun j => g i j) (seq 0 c))) by exact Hi.
  apply (nth_map_seq (g i)); exact Hj.
Qed.

Lemma vcoeff_map_seq (g : nat -> R) n i :
  (i < n)%nat -> vcoeff (map g (seq 0 n)) i = g i.
Proof. apply nth_map_seq. Qed.

Lemma coeff_transposeInPlace M i j :
  (i < cols M)%nat -> (j < rows M)%nat ->
  coeff (transposeInPlace M) i j = coeff M j i.
Proof. intros; unfold transposeInPlace; now rewrite coeff_mat_of_fun. Qed.

(** ** The exponential system *)

Lemma ExponentialSystem_ctor_well_formed tau y_init y_attr alpha s :
  ExponentialSystem_ctor tau y_init y_attr alpha = Returns s ->
  well_formed 1 (as_DynamicalSystem s) /\
  dim_ (as_DynamicalSystem s) = length y_init /\
  integration_method_ (as_DynamicalSystem s) = RUNGE_KUTTA.
Proof.
  unfold ExponentialSystem_ctor, DynamicalSystem_ctor; simpl.
  destruct (Nat.eqb (length y_init) (length y_attr)) eqn:E; simpl; [|discriminate].
  intros [= <-]; simpl. apply Nat.eqb_eq in E.
  unfold well_formed; simpl. repeat split; lia.
Qed.

Section ExponentialProperties.
Variable s : ExponentialSystem.
Let d := as_DynamicalSystem s.
Let alpha := alpha_ s.
Let tau := tau_ d.
Let y0 := initial_state_ d.
Let ya := attractor_state_ d.
Hypothesis WF : well_formed 1 d.

Lemma wf_sizes : length y0 = dim_ d /\ length ya = dim_ d.
Proof. destruct WF as (D & I & A); unfold y0, ya; lia. Qed.

Lemma differentialEquation_coeff x i :
  length x = dim_ d -> (i < dim_ d)%nat ->
  vcoeff (differentialEquation s x) i = alpha * (vcoeff ya i - vcoeff x i) / tau.
Proof.
  intros Hx Hi; destruct wf_sizes as [_ Ha]; simpl.
  unfold ExponentialSystem_differentialEquation; fold d ya alpha tau.
  rewrite vcoeff_sdiv, vcoeff_smul, vcoeff_vsub by vlen.
  reflexivity.
Qed.

Lemma differentialEquation_size x :
  length x = dim_ d -> length (differentialEquation s x) = dim_ d.
Proof.
  intros Hx; destruct wf_sizes as [_ Ha]; simpl.
  unfold ExponentialSystem_differentialEquation; fold d ya. vlen.
Qed.

Lemma analyticalSolution_unfold ts xs0 xds0 :
  ts <> [] ->
  analyticalSolution s ts xs0 xds0 =
  if Nat.eqb (rows xs0) (dim_ d) && Nat.eqb (cols xs0) (length ts)
  then Returns (transposeInPlace (xs_time_major s ts),
                transposeInPlace (xds_time_major s ts))
  else Returns (xs_time_major s ts, xds_time_major s ts).
Proof.
  intros Hts; unfold analyticalSolution.
  rewrite assert_true_bind; [reflexivity|].
  apply Nat.ltb_lt. destruct ts; [contradiction | simpl; lia].
Qed.

Lemma time_major_shape ts :
  rows (xs_time_major s ts) = length ts /\ cols (xs_time_major s ts) = dim_ d /\
  rows (xds_time_major s ts) = length ts /\ cols (xds_time_major s ts) = dim_ d.
Proof.
  destruct wf_sizes as [H0 Ha].
  unfold xs_time_major, xds_time_major; fold d; fold y0 ya; simpl.
  repeat split; vlen.
Qed.

Lemma xs_time_major_coeff ts t i :
  (t < length ts)%nat -> (i < dim_ d)%nat ->
  coeff (xs_time_major s ts) t i =
  vcoeff ya i + (vcoeff y0 i - vcoeff ya i) * exp (- alpha * vcoeff ts t / tau).
Proof.
  intros Ht Hi; destruct wf_sizes as [H0 Ha].
  assert (Hv : length (y0 -v ya) = dim_ d) by vlen.
  unfold xs_time_major; fold d; fold y0 ya alpha tau.
  unfold madd, cwiseProduct, replicate_row, replicate_col.
  cbn [rows cols mat_of_fun].
  rewrite !length_map, Hv, Ha.
  rewrite !coeff_mat_of_fun by (try assumption; vlen).
  rewrite vcoeff_vsub by vlen.
  rewrite (vcoeff_map exp) by vlen.
  rewrite vcoeff_sdiv, vcoeff_smul by vlen.
  ring.
Qed.

Lemma xds_time_major_coeff ts t i :
  (t < length ts)%nat -> (i < dim_ d)%nat ->
  coeff (xds_time_major s ts) t i =
  - (alpha / tau) * (vcoeff y0 i - vcoeff ya i) * exp (- alpha * vcoeff ts t / tau).
Proof.
  intros Ht Hi; destruct wf_sizes as [H0 Ha].
  assert (Hv : length (y0 -v ya) = dim_ d) by vlen.
  unfold xds_time_major; fold d; fold y0 ya alpha tau.
  unfold cwiseProduct, replicate_row, replicate_col.
  cbn [rows cols mat_of_fun].
  rewrite Hv.
  rewrite !coeff_mat_of_fun by (try assumption; vlen).
  rewrite vcoeff_vsub by vlen.
  rewrite vcoeff_smul by vlen.
  rewrite (vcoeff_map exp) by vlen.
  rewrite vcoeff_sdiv, vcoeff_smul by vlen.
  ring.
Qed.

End ExponentialProperties.

(** ** The value of [exp (-1)] *)

Lemma inv_fact_pos i : 0 < inv_fact i.
Proof. apply Rinv_0_lt_compat, INR_fact_lt_0. Qed.

Lemma inv_fact_S i : inv_fact (S i) = inv_fact i / (INR i + 1).
Proof.
  unfold inv_fact. rewrite fact_simpl, mult_INR, S_INR.
  field. split; [apply INR_fact_neq_0 | pose proof (pos_INR i); lra].
Qed.

Lemma inv_fact_decreasing : Un_decreasing inv_fact.
Proof.
  intros n. rewrite inv_fact_S.
  pose proof (inv_fact_pos n) as Hp. pose proof (pos_INR n) as Hn.
  apply Rle_trans with (inv_fact n / 1); [|lra].
  unfold Rdiv. apply Rmult_le_compat_l; [lra|].
  apply Rinv_le_contravar; lra.
Qed.

Lemma inv_fact_vanishes : Un_cv inv_fact 0.
Proof.
  intros eps Heps.
  destruct (cv_speed_pow_fact 1 eps Heps) as [N HN].
  exists N; intros n Hn. specialize (HN n Hn).
  rewrite pow1 in HN. unfold Rdiv in HN. rewrite Rmult_1_l in HN. exact HN.
Qed.

Lemma exp_minus_one_series :
  Un_cv (fun N => sum_f_R0 (tg_alt inv_fact) N) (exp (-1)).
Proof.
  intros eps Heps.
  destruct (proj2_sig (exist_exp (-1)) eps Heps) as [N HN].
  exists N; intros n Hn. specialize (HN n Hn).
  fold (exp (-1)) in HN.
  rewrite (sum_eq (tg_alt inv_fact) (fun i => / INR (fact i) * (-1) ^ i)); [exact HN|].
  intros i _. unfold tg_alt, inv_fact. apply Rmult_comm.
Qed.

Lemma inv_fact_values :
  inv_fact 0 = 1 /\ inv_fact 1 = 1 /\ inv_fact 2 = / 2 /\ inv_fact 3 = / 6 /\
  inv_fact 4 = / 24 /\ inv_fact 5 = / 120 /\ inv_fact 6 = / 720 /\
  inv_fact 7 = / 5040 /\ inv_fact 8 = / 40320 /\ inv_fact 9 = / 362880 /\
  inv_fact 10 = / 3628800 /\ inv_fact 11 = / 39916800.
Proof.
  assert (F0 : inv_fact 0 = 1) by (unfold inv_fact; simpl; field).
  assert (F1 : inv_fact 1 = 1) by (rewrite inv_fact_S, F0; simpl; field).
  assert (F2 : inv_fact 2 = / 2) by (rewrite inv_fact_S, F1; simpl; field).
  assert (F3 : inv_fact 3 = / 6) by (rewrite inv_fact_S, F2; simpl; field).
  assert (F4 : inv_fact 4 = / 24) by (rewrite inv_fact_S, F3; simpl; field).
  assert (F5 : inv_fact 5 = / 120) by (rewrite inv_fact_S, F4; simpl; field).
  assert (F6 : inv_fact 6 = / 720) by (rewrite inv_fact_S, F5; simpl; field).
  assert (F7 : inv_fact 7 = / 5040) by (rewrite inv_fact_S, F6; simpl; field).
  assert (F8 : inv_fact 8 = / 40320) by (rewrite inv_fact_S, F7; simpl; field).
  assert (F9 : inv_fact 9 = / 362880) by (rewrite inv_fact_S, F8; simpl; field).
  assert (F10 : inv_fact 10 = / 3628800) by (rewrite inv_fact_S, F9; simpl; field).
  assert (F11 : inv_fact 11 = / 39916800) by (rewrite inv_fact_S, F10; simpl; field).
  repeat split; assumption.
Qed.

(** [exp (-1)] lies between the partial sums of orders 11 and 10 of its
    alternating series. *)
Lemma exp_minus_one_bounds : 0.3678794 < exp (-1) < 0.3678795.
Proof.
  destruct (alternated_series_ineq inv_fact (exp (-1)) 5
              inv_fact_decreasing inv_fact_vanishes exp_minus_one_series)
    as [Hlo Hhi].
  change (S (2 * 5)) with 11%nat in Hlo. change (2 * 5)%nat with 10%nat in Hhi.
  destruct inv_fact_values
    as (F0 & F1 & F2 & F3 & F4 & F5 & F6 & F7 & F8 & F9 & F10 & F11).
  cbn [sum_f_R0] in Hlo, Hhi. unfold tg_alt in Hlo, Hhi.
  rewrite F0, F1, F2, F3, F4, F5, F6, F7, F8, F9, F10 in Hhi.
  rewrite F0, F1, F2, F3, F4, F5, F6, F7, F8, F9, F10, F11 in Hlo.
  cbn [pow] in Hlo, Hhi.
  split; lra.
Qed.

(** ** The closed-form solution of the exponential system *)

Lemma dim_major_true s ts xs0 :
  dim_major s ts xs0 ->
  Nat.eqb (rows xs0) (dim_ (as_DynamicalSystem s)) &&
  Nat.eqb (cols xs0) (length ts) = true.
Proof.
  intros [Hr Hc]. apply andb_true_iff; split; now apply Nat.eqb_eq.
Qed.

Lemma dim_major_false s ts xs0 :
  ~ dim_major s ts xs0 ->
  Nat.eqb (rows xs0) (dim_ (as_DynamicalSystem s)) &&
  Nat.eqb (cols xs0) (length ts) = false.
Proof.
  intros Hn. apply not_true_is_false. intros E.
  apply andb_true_iff in E as [Hr Hc]. apply Nat.eqb_eq in Hr, Hc.
  apply Hn; split; assumption.
Qed.

(** C3: the exponential system has derivative alpha (ya - x) / tau at
    every state x; its analytical solution at every time t of [ts] is
    ya + (y0 - ya) exp(-alpha t / tau), with derivative
    -(alpha/tau) (y0 - ya) exp(-alpha t / tau), stored at (t, i) or, for
    a dim-major buffer, at (i, t); and for alpha = 1, tau = 1, y0 = [1],
    ya = [0] the solution at t = tau is exp(-1), within 1e-6 of
    0.367879. *)
Theorem C3_exponential_system (s : ExponentialSystem) :
  let d := as_DynamicalSystem s in
  let alpha := alpha_ s in
  let tau := tau_ d in
  let y0 := initial_state_ d in
  let ya := attractor_state_ d in
  well_formed 1 d ->
  (forall x, length x = dim_ d ->
     length (differentialEquation s x) = dim_ d /\
     forall i, (i < dim_ d)%nat ->
       vcoeff (differentialEquation s x) i =
       alpha * (vcoeff ya i - vcoeff x i) / tau) /\
  (forall ts xs0 xds0, ts <> [] ->
     exists xs xds,
       analyticalSolution s ts xs0 xds0 = Returns (xs, xds) /\
       forall t i, (t < length ts)%nat -> (i < dim_ d)%nat ->
         let x_t := vcoeff ya i +
                    (vcoeff y0 i - vcoeff ya i) * exp (- alpha * vcoeff ts t / tau) in
         let xd_t := - (alpha / tau) * (vcoeff y0 i - vcoeff ya i) *
                     exp (- alpha * vcoeff ts t / tau) in
         (dim_major s ts xs0 -> coeff xs i t = x_t /\ coeff xds i t = xd_t) /\
         (~ dim_major s ts xs0 -> coeff xs t i = x_t /\ coeff xds t i = xd_t)) /\
  (exists s1,
     ExponentialSystem_ctor 1 [1] [0] 1 = Returns s1 /\
     forall xs0 xds0, exists xs xds,
       analyticalSolution s1 [tau_ (as_DynamicalSystem s1)] xs0 xds0 =
         Returns (xs, xds) /\
       coeff xs 0 0 = exp (-1) /\
       Rabs (coeff xs 0 0 - 0.367879) < 1e-6).
Proof.
  intros d alpha tau y0 ya WF. split; [|split].
  - intros x Hx; split.
    + now apply differentialEquation_size.
    + intros i Hi. now apply differentialEquation_coeff.
  - intros ts xs0 xds0 Hts. unfold d in *.
    rewrite analyticalSolution_unfold by assumption.
    destruct (time_major_shape s WF ts) as (R1 & C1 & R2 & C2).
    destruct (Nat.eqb (rows xs0) (dim_ (as_DynamicalSystem s)) &&
              Nat.eqb (cols xs0) (length ts)) eqn:E.
    + eexists; eexists; split; [reflexivity|].
      intros t i Ht Hi; split.
      * intros _.
        rewrite !coeff_transposeInPlace by lia.
        split; [now apply xs_time_major_coeff | now apply xds_time_major_coeff].
      * intros Hn. apply dim_major_false in Hn. congruence.
    + eexists; eexists; split; [reflexivity|].
      intros t i Ht Hi; split.
      * intros Hy. apply dim_major_true in Hy. congruence.
      * intros _.
        split; [now apply xs_time_major_coeff | now apply xds_time_major_coeff].
  - eexists; split; [reflexivity|]. cbn [as_DynamicalSystem tau_].
    intros xs0 xds0.
    set (s1 := {| as_DynamicalSystem := _; alpha_ := 1 |}).
    assert (WF1 : well_formed 1 (as_DynamicalSystem s1))
      by (repeat split; reflexivity).
    assert (V : coeff (xs_time_major s1 [1]) 0 0 = exp (-1)).
    { rewrite (xs_time_major_coeff s1 WF1) by (simpl; lia).
      unfold vcoeff; simpl. replace (- (1) * 1 / 1) with (-1) by field. ring. }
    assert (B : Rabs (exp (-1) - 0.367879) < 1e-6).
    { pose proof exp_minus_one_bounds. apply Rabs_def1; lra. }
    rewrite analyticalSolution_unfold by discriminate.
    destruct (Nat.eqb (rows xs0) (dim_ (as_DynamicalSystem s1)) &&
              Nat.eqb (cols xs0) (length [1])).
    + eexists; eexists; split; [reflexivity|].
      rewrite coeff_transposeInPlace by (simpl; lia).
      rewrite V; split; [reflexivity | exact B].
    + eexists; eexists; split; [reflexivity|].
      rewrite V; split; [reflexivity | exact B].
Qed.

(** C4: for a non-empty [ts] of length T the solution and its derivative
    are computed time-major (T x dim, row t holding the state at time
    ts[t]); a caller-supplied [xs] of exactly dim rows and T columns gets
    [xs] and [xds] back transposed, as dim x T matrices, and every other
    shape of [xs] gets them back time-major, T x dim. *)
Theorem C4_analyticalSolution_orientation (s : ExponentialSystem)
    (ts : VectorXd) (xs0 xds0 : MatrixXd) :
  let dim := dim_ (as_DynamicalSystem s) in
  let T := length ts in
  let xs_tm := xs_time_major s ts in
  let xds_tm := xds_time_major s ts in
  well_formed 1 (as_DynamicalSystem s) -> ts <> [] ->
  (rows xs_tm = T /\ cols xs_tm = dim /\ rows xds_tm = T /\ cols xds_tm = dim) /\
  (forall t i, (t < T)%nat -> (i < dim)%nat ->
     let y0 := vcoeff (initial_state_ (as_DynamicalSystem s)) i in
     let ya := vcoeff (attractor_state_ (as_DynamicalSystem s)) i in
     let e := exp (- alpha_ s * vcoeff ts t / tau_ (as_DynamicalSystem s)) in
     coeff xs_tm t i = ya + (y0 - ya) * e /\
     coeff xds_tm t i =
       - (alpha_ s / tau_ (as_DynamicalSystem s)) * (y0 - ya) * e) /\
  (dim_major s ts xs0 ->
   exists xs xds,
     analyticalSolution s ts xs0 xds0 = Returns (xs, xds) /\
     xs = transposeInPlace xs_tm /\ xds = transposeInPlace xds_tm /\
     rows xs = dim /\ cols xs = T /\ rows xds = dim /\ cols xds = T /\
     forall t i, (t < T)%nat -> (i < dim)%nat ->
       coeff xs i t = coeff xs_tm t i /\ coeff xds i t = coeff xds_tm t i) /\
  (~ dim_major s ts xs0 ->
   analyticalSolution s ts xs0 xds0 = Returns (xs_tm, xds_tm)).
Proof.
  intros dim T xs_tm xds_tm WF Hts. subst dim T xs_tm xds_tm.
  destruct (time_major_shape s WF ts) as (R1 & C1 & R2 & C2).
  split; [repeat split; assumption|]. split; [|split].
  - intros t i Ht Hi; cbv zeta.
    split; [now apply xs_time_major_coeff | now apply xds_time_major_coeff].
  - intros Hy. rewrite analyticalSolution_unfold, dim_major_true by assumption.
    eexists; eexists; split; [reflexivity|].
    repeat split; try (simpl; assumption);
      apply coeff_transposeInPlace; lia.
  - intros Hn. now rewrite analyticalSolution_unfold, dim_major_false.
Qed.

(** ** The properties at the documented example system *)

Lemma unit_decay_well_formed m : well_formed 1 (as_DynamicalSystem (unit_decay m)).
Proof. repeat split. Qed.

(** Evaluation of vector expressions over the exponential system. *)
Ltac eval_vec :=
  cbv [differentialEquation ExponentialSystem_impl
       ExponentialSystem_differentialEquation vadd vsub smul sdiv cwiseBinary
       map unit_decay as_DynamicalSystem attractor_state_ tau_ alpha_].

Lemma C1_witness :
  integrateStep (unit_decay RUNGE_KUTTA) 1 [1] = Returns ([0.375], [- 0.375]).
Proof.
  destruct (C1_integrateStep_runge_kutta (unit_decay RUNGE_KUTTA) 1 [1])
    as [E _]; [reflexivity | lra | reflexivity |].
  rewrite E. eval_vec. do 3 f_equal; lra.
Defined.

Lemma C2_witness :
  integrateStep (unit_decay EULER) 0.5 [1] = Returns ([0.5], [- 1]) /\
  integrateStep (unit_decay EULER) (- 1) [1] = AssertionFailed.
Proof.
  destruct (C2_integrateStep_euler (unit_decay EULER) 0.5 [1]) as [Hok _];
    [reflexivity|].
  destruct (C2_integrateStep_euler (unit_decay EULER) (- 1) [1]) as [_ Hbad];
    [reflexivity|].
  split.
  - destruct Hok as (_ & E & _); [lra | reflexivity |].
    rewrite E. eval_vec. do 3 f_equal; lra.
  - apply Hbad. intros [Hdt _]. lra.
Defined.

Lemma C3_witness :
  vcoeff (differentialEquation (unit_decay RUNGE_KUTTA) [3]) 0 = 1 * (0 - 3) / 1.
Proof.
  destruct (C3_exponential_system (unit_decay RUNGE_KUTTA)
              (unit_decay_well_formed RUNGE_KUTTA)) as (Hde & _ & _).
  destruct (Hde [3] eq_refl) as [_ Hi].
  apply (Hi 0%nat). simpl; lia.
Defined.

Lemma C4_witness :
  analyticalSolution (unit_decay RUNGE_KUTTA) [0; 1]
    (MatrixXd_alloc 1 2) (MatrixXd_alloc 0 0) =
  Returns (transposeInPlace (xs_time_major (unit_decay RUNGE_KUTTA) [0; 1]),
           transposeInPlace (xds_time_major (unit_decay RUNGE_KUTTA) [0; 1])).
Proof.
  destruct (C4_analyticalSolution_orientation (unit_decay RUNGE_KUTTA) [0; 1]
              (MatrixXd_alloc 1 2) (MatrixXd_alloc 0 0)
              (unit_decay_well_formed RUNGE_KUTTA))
    as (_ & _ & Hdim & _); [discriminate|].
  destruct Hdim as (xs & xds & E & -> & -> & _); [split; reflexivity|].
  exact E.
Defined.

(** ** Substring search *)

Lemma prefix_iff_append (p s : string) :
  prefix p s = true <-> exists after, s = (p ++ after)%string.
Proof.
  rewrite prefix_correct. revert s; induction p as [|a p IH]; intros s; simpl.
  - split; [intros _; exists s; reflexivity | intros _].
    destruct s; reflexivity.
  - destruct s as [|b s]; simpl.
    + split; [discriminate | intros [after E]; discriminate].
    + split.
      * intros [= -> E]. apply IH in E as [after ->]. exists after; reflexivity.
      * intros [after [= -> E]]. f_equal. apply IH. exists after; exact E.
Qed.

Lemma index_cons needle b s :
  index 0 needle (String b s) =
  if prefix needle (String b s) then Some 0%nat
  else match index 0 needle s with Some n => Some (S n) | None => None end.
Proof. reflexivity. Qed.

Lemma found_cons haystack needle b :
  found (String b haystack) needle =
  prefix needle (String b haystack) || found haystack needle.
Proof.
  unfold found, string_find. rewrite index_cons.
  destruct (prefix needle (String b haystack)); [reflexivity|].
  destruct (index 0 needle haystack); reflexivity.
Qed.

(** [find] succeeds exactly on the strings that contain the needle. *)
Lemma found_iff_contains haystack needle :
  found haystack needle = true <-> contains_substring haystack needle.
Proof.
  induction haystack as [|b h IH].
  - unfold found, string_find, contains_substring; simpl.
    destruct needle as [|a n]; split; try discriminate; auto.
    + intros _. exists EmptyString, EmptyString. reflexivity.
    + intros (pre & post & E). destruct pre; discriminate.
  - rewrite found_cons, orb_true_iff, prefix_iff_append, IH.
    unfold contains_substring. split.
    + intros [[after E] | (pre & post & E)].
      * exists EmptyString, after. exact E.
      * exists (String b pre), post. simpl. now rewrite E.
    + intros (pre & post & E). destruct pre as [|c pre].
      * left. exists post. exact E.
      * right. injection E as _ E. exists pre, post. exact E.
Qed.

Lemma not_found_iff haystack needle :
  found haystack needle = false <-> ~ contains_substring haystack needle.
Proof.
  rewrite <- found_iff_contains. destruct (found haystack needle); split;
    intros; try discriminate; try reflexivity; try contradiction.
Qed.

(** ** Polymorphic deserialisation *)

Section DispatchProperties.
Variable SigmoidSystem : Type.
Variable TimeSystem : Type.
Variable SigmoidSystem_from_json : json -> outcome SigmoidSystem.
Variable SpringDamperSystem_from_json : json -> outcome SpringDamperSystem.
Variable TimeSystem_from_json : json -> outcome TimeSystem.
Variable FILE : string.

Let from_json' :=
  from_json SigmoidSystem TimeSystem SigmoidSystem_from_json
    SpringDamperSystem_from_json TimeSystem_from_json FILE.
Let construct' :=
  construct SigmoidSystem TimeSystem SigmoidSystem_from_json
    SpringDamperSystem_from_json TimeSystem_from_json.

(** The chain of tests of [from_json], read as a decision on the
    discriminator. *)
Lemma from_json_cases j class_name :
  discriminator j = Returns class_name ->
  from_json' j =
  if found class_name "ExponentialSystem" then
    (construct' VExponentialSystem j, EmptyString)
  else if found class_name "SigmoidSystem" then
    (construct' VSigmoidSystem j, EmptyString)
  else if found class_name "SpringDamperSystem" then
    (construct' VSpringDamperSystem j, EmptyString)
  else if found class_name "TimeSystem" then
    (construct' VTimeSystem j, EmptyString)
  else
    (Returns NULL,
     (FILE ++ ":153:Unknown DynamicalSystem: " ++ class_name ++ endl)%string).
Proof.
  unfold from_json', from_json, discriminator. intros ->. reflexivity.
Qed.

(** C6: when the discriminator contains none of the four variant names,
    [from_json] returns normally with the null pointer and writes the
    diagnostic naming the unknown class to [cerr]; it neither throws nor
    aborts nor yields an object. *)
Theorem C6_unknown_discriminator j class_name :
  discriminator j = Returns class_name ->
  (forall v, ~ contains_substring class_name (variant_name v)) ->
  from_json' j =
    (Returns NULL,
     (FILE ++ ":153:Unknown DynamicalSystem: " ++ class_name ++ endl)%string) /\
  snd (from_json' j) <> EmptyString /\
  (forall p, fst (from_json' j) = Returns p -> p = NULL).
Proof.
  intros Hd Hnone.
  assert (E : from_json' j =
    (Returns NULL,
     (FILE ++ ":153:Unknown DynamicalSystem: " ++ class_name ++ endl)%string)).
  { rewrite (from_json_cases j class_name Hd).
    pose proof (Hnone VExponentialSystem) as H1.
    pose proof (Hnone VSigmoidSystem) as H2.
    pose proof (Hnone VSpringDamperSystem) as H3.
    pose proof (Hnone VTimeSystem) as H4.
    apply not_found_iff in H1, H2, H3, H4. simpl in H1, H2, H3, H4.
    now rewrite H1, H2, H3, H4. }
  rewrite E; simpl. split; [reflexivity|]. split.
  - destruct FILE; discriminate.
  - now intros p [= <-].
Qed.

(** C10: the class is chosen by substring containment, tested in the
    order ExponentialSystem, SigmoidSystem, SpringDamperSystem,
    TimeSystem: the variant constructed is the earliest one in that order
    whose name the discriminator contains. *)
Theorem C10_earliest_variant_wins j class_name v :
  discriminator j = Returns class_name ->
  contains_substring class_name (variant_name v) ->
  (forall v', contains_substring class_name (variant_name v') ->
              (variant_rank v <= variant_rank v')%nat) ->
  from_json' j = (construct' v j, EmptyString).
Proof.
  intros Hd Hv Hmin.
  rewrite (from_json_cases j class_name Hd).
  apply found_iff_contains in Hv.
  assert (Hearlier : forall v', (variant_rank v' < variant_rank v)%nat ->
                                found class_name (variant_name v') = false).
  { intros v' Hlt. apply not_found_iff. intros Hc.
    specialize (Hmin v' Hc). lia. }
  pose proof (Hearlier VExponentialSystem) as E1.
  pose proof (Hearlier VSigmoidSystem) as E2.
  pose proof (Hearlier VSpringDamperSystem) as E3.
  destruct v; simpl in Hv, E1, E2, E3.
  - now rewrite Hv.
  - rewrite E1 by lia. now rewrite Hv.
  - rewrite E1, E2 by lia. now rewrite Hv.
  - rewrite E1, E2, E3 by lia. now rewrite Hv.
Qed.

End DispatchProperties.

Lemma C6_witness :
  from_json unit unit (fun _ => Throws type_error) (fun _ => Throws type_error)
    (fun _ => Throws type_error) "DynamicalSystem.cpp"
    (JObject [("py/object"%string, JString "dynamicalsystems.Foo.Foo")]) =
  (Returns NULL,
   ("DynamicalSystem.cpp:153:Unknown DynamicalSystem: dynamicalsystems.Foo.Foo"
      ++ endl)%string).
Proof.
  refine (proj1 (C6_unknown_discriminator unit unit (fun _ => Throws type_error)
                   (fun _ => Throws type_error) (fun _ => Throws type_error)
                   "DynamicalSystem.cpp"
                   (JObject [("py/object"%string,
                              JString "dynamicalsystems.Foo.Foo")])
                   "dynamicalsystems.Foo.Foo" eq_refl _)).
  intros v. apply not_found_iff. destruct v; vm_compute; reflexivity.
Defined.

Lemma C10_witness :
  from_json unit unit (fun _ => Returns tt) (fun _ => Throws type_error)
    (fun _ => Returns tt) "DynamicalSystem.cpp"
    (JObject [("py/object"%string, JString "TimeSystem.SigmoidSystem")]) =
  (Returns (ptr_SigmoidSystem tt), EmptyString).
Proof.
  refine (C10_earliest_variant_wins unit unit (fun _ => Returns tt)
            (fun _ => Throws type_error) (fun _ => Returns tt)
            "DynamicalSystem.cpp"
            (JObject [("py/object"%string, JString "TimeSystem.SigmoidSystem")])
            "TimeSystem.SigmoidSystem" VSigmoidSystem eq_refl _ _).
  - apply found_iff_contains. vm_compute; reflexivity.
  - intros v' Hc. apply found_iff_contains in Hc.
    destruct v'; simpl; try lia. vm_compute in Hc. discriminate.
Defined.

(** ** Documents of dynamical systems *)

Lemma mapM_get_double_JFloat (v : VectorXd) :
  mapM get_double (map JFloat v) = Returns v.
Proof. induction v as [|a v IH]; simpl; [reflexivity | now rewrite IH]. Qed.

(** What reading back the document of an exponential system gives: every
    member but the integration method, which is always RUNGE_KUTTA. *)
Lemma ExponentialSystem_roundtrip (s : ExponentialSystem) :
  well_formed 1 (as_DynamicalSystem s) ->
  exists doc,
    ExponentialSystem_to_json_helper s JNull = Returns doc /\
    ExponentialSystem_from_json doc =
      Returns {| as_DynamicalSystem :=
                   set_integration_method RUNGE_KUTTA (as_DynamicalSystem s);
                 alpha_ := alpha_ s |}.
Proof.
  intros (D & I & A). destruct s as [[dim dim_orig tau y0 ya m] alpha].
  simpl in *. eexists; split; [reflexivity|].
  unfold ExponentialSystem_from_json; simpl.
  rewrite !mapM_get_double_JFloat; simpl.
  unfold ExponentialSystem_ctor, DynamicalSystem_ctor; simpl.
  rewrite I, A, Nat.eqb_refl; simpl.
  unfold set_integration_method; simpl.
  repeat f_equal; lia.
Qed.

(** C5 at a system configured for Euler integration: the document
    records "EULER", the polymorphic reader picks the exponential
    variant and restores every other member, but the system read back
    integrates with RUNGE_KUTTA. *)
Theorem C5_integration_method_not_restored :
  exists doc s',
    ExponentialSystem_to_json_helper (unit_decay EULER) JNull = Returns doc /\
    json_at doc "integration_method_" = Returns (JString "EULER") /\
    from_json unit unit (fun _ => Throws type_error) (fun _ => Throws type_error)
      (fun _ => Throws type_error) "DynamicalSystem.cpp" doc =
      (Returns (ptr_ExponentialSystem s'), EmptyString) /\
    alpha_ s' = alpha_ (unit_decay EULER) /\
    set_integration_method EULER (as_DynamicalSystem s') =
      as_DynamicalSystem (unit_decay EULER) /\
    integration_method_ (as_DynamicalSystem s') = RUNGE_KUTTA /\
    integration_method_ (as_DynamicalSystem s') <>
      integration_method_ (as_DynamicalSystem (unit_decay EULER)).
Proof.
  eexists; eexists. split; [reflexivity|]. split; [reflexivity|].
  split; [reflexivity|]. simpl. repeat split. discriminate.
Qed.

(** ** Documents of the RBFN approximator *)

(** C8 fails on every approximator: the document [to_json] writes has
    the top-level keys centers_, widths_, weights_ and py/object, and
    [from_jsonpickle] stops at the missing key _model_params. *)
Theorem C8_own_document_is_rejected (obj : RBFN.FunctionApproximatorRBFN) :
  exists doc,
    RBFN.toString_document obj = Returns doc /\
    json_contains doc "centers_" = true /\
    json_contains doc "_model_params" = false /\
    RBFN.from_jsonpickle doc = Throws (out_of_range "_model_params").
Proof.
  eexists. split; [reflexivity|]. repeat split.
Qed.

(** The revision that holds the matrices itself reports a missing
    _model_params key as an exception. *)
Lemma RBFN_from_jsonpickle_missing_key ms :
  find_member "_model_params" ms = None ->
  RBFN.from_jsonpickle (JObject ms) = Throws (out_of_range "_model_params").
Proof. unfold RBFN.from_jsonpickle; simpl. now intros ->. Qed.

(** C9 fails in the revision that owns a [ModelParametersRBFN]: without
    the key _model_params the reader passes a null pointer to the
    constructor, which dereferences it; no exception is thrown and no
    error value is returned. *)
Theorem C9_missing_model_params_dereferences_null (j : json) :
  json_contains j "_model_params" = false ->
  RBFN_MP.from_jsonpickle j = RBFN_MP.ctor None /\
  RBFN_MP.from_jsonpickle j = NullDereference /\
  (forall e, RBFN_MP.from_jsonpickle j <> Throws e) /\
  RBFN_MP.from_jsonpickle j <> AssertionFailed.
Proof.
  intros Hc. unfold RBFN_MP.from_jsonpickle. rewrite Hc; simpl.
  repeat split; [intros e|]; discriminate.
Qed.

Lemma C9_witness : RBFN_MP.from_jsonpickle (JObject []) = NullDereference.
Proof.
  exact (proj1 (proj2
           (C9_missing_model_params_dereferences_null (JObject []) eq_refl))).
Defined.

(** ** Prediction *)

Lemma sum_upto_ext n g h :
  (forall i, (i < n)%nat -> g i = h i) -> sum_upto n g = sum_upto n h.
Proof.
  intros E; unfold sum_upto; f_equal.
  apply map_ext_in; intros i Hi. apply in_seq in Hi. apply E; lia.
Qed.

(** The weighting loop, after its first [n] iterations. *)
Lemma weighting_loop (w : nat -> R) (M : MatrixXd) n :
  let M' := fold_left (fun A b => scale_col A b (w b)) (seq 0 n) M in
  rows M' = rows M /\ cols M' = cols M /\
  forall i j, (i < rows M)%nat -> (j < cols M)%nat ->
    coeff M' i j = if Nat.ltb j n then coeff M i j * w j else coeff M i j.
Proof.
  induction n as [|n IH]; cbv zeta in *.
  - simpl. repeat split; reflexivity.
  - rewrite seq_S, fold_left_app; simpl.
    destruct IH as (R & C & V).
    set (Mn := fold_left (fun A b => scale_col A b (w b)) (seq 0 n) M) in *.
    split; [exact R|]. split; [exact C|].
    intros i j Hi Hj. unfold scale_col.
    rewrite coeff_mat_of_fun by lia. rewrite V by assumption.
    destruct (Nat.eqb_spec j n) as [->|Hne].
    + rewrite Nat.ltb_irrefl.
      replace (n <? S n)%nat with true by (symmetry; apply Nat.ltb_lt; lia).
      reflexivity.
    + destruct (Nat.ltb_spec j n) as [Hlt|Hge].
      * replace (j <? S n)%nat with true by (symmetry; apply Nat.ltb_lt; lia).
        reflexivity.
      * replace (j <? S n)%nat with false by (symmetry; apply Nat.ltb_ge; lia).
        reflexivity.
Qed.

(** Weighting every column and summing each row gives the weighted sum
    of the row. *)
Lemma weighted_rowwise_sum (w : nat -> R) (M : MatrixXd) t :
  (t < rows M)%nat ->
  let out :=
    rowwise_sum (fold_left (fun A b => scale_col A b (w b)) (seq 0 (cols M)) M) in
  rows out = rows M /\ cols out = 1%nat /\
  coeff out t 0 = sum_upto (cols M) (fun b => coeff M t b * w b).
Proof.
  intros Ht; simpl.
  destruct (weighting_loop w M (cols M)) as (R & C & V). simpl in R, C, V.
  split; [exact R|]. split; [reflexivity|].
  unfold rowwise_sum. rewrite coeff_mat_of_fun by lia.
  unfold row, sum_upto. rewrite C. f_equal.
  apply map_ext_in; intros j Hj. apply in_seq in Hj.
  rewrite V by lia.
  replace (j <? cols M)%nat with true by (symmetry; apply Nat.ltb_lt; lia).
  reflexivity.
Qed.

(** A kernel looks only at the row of the inputs it is evaluated on. *)
Lemma gaussian_kernel_row centers widths inputs t r b :
  cols inputs = cols centers -> (t < rows inputs)%nat -> row inputs t = r ->
  gaussian_kernel centers widths (row_matrix r) 0 b =
  gaussian_kernel centers widths inputs t b.
Proof.
  intros Hc Ht <-. unfold gaussian_kernel. do 2 f_equal.
  apply sum_upto_ext; intros d Hd.
  unfold row_matrix, row. rewrite length_map, length_seq.
  rewrite coeff_mat_of_fun by lia.
  rewrite vcoeff_map_seq by lia. reflexivity.
Qed.

Lemma weighted_activation_sum_row centers widths weight inputs t r :
  cols inputs = cols centers -> (t < rows inputs)%nat -> row inputs t = r ->
  weighted_activation_sum centers widths weight (row_matrix r) 0 =
  weighted_activation_sum centers widths weight inputs t.
Proof.
  intros Hc Ht Hr. unfold weighted_activation_sum.
  apply sum_upto_ext; intros b Hb. f_equal.
  unfold Gaussian_activations. rewrite !coeff_mat_of_fun by (simpl; lia).
  now apply gaussian_kernel_row.
Qed.


(** [predict] leaves the model untouched: only scratch memory changes. *)
Lemma RBFN_predict_preserves fa inputs :
  let fa' := fst (RBFN.predict fa inputs) in
  RBFN.n_basis_functions_ fa' = RBFN.n_basis_functions_ fa /\
  RBFN.centers_ fa' = RBFN.centers_ fa /\
  RBFN.widths_ fa' = RBFN.widths_ fa /\
  RBFN.weights_ fa' = RBFN.weights_ fa.
Proof.
  unfold RBFN.predict. destruct (Nat.eqb (rows inputs) 1); simpl; auto.
Qed.

(** The output of [predict], whichever branch runs. *)
Lemma RBFN_predict_output fa inputs t :
  RBFN_consistent fa -> (t < rows inputs)%nat ->
  let outputs := snd (RBFN.predict fa inputs) in
  rows outputs = rows inputs /\ cols outputs = 1%nat /\
  coeff outputs t 0 =
  weighted_activation_sum (RBFN.centers_ fa) (RBFN.widths_ fa)
    (fun b => coeff (RBFN.weights_ fa) b 0) inputs t.
Proof.
  intros (N & RW & RG & CW & CG) Ht.
  set (A := Gaussian_activations (RBFN.centers_ fa) (RBFN.widths_ fa) inputs false).
  assert (HA : (t < rows A)%nat) by exact Ht.
  destruct (weighted_rowwise_sum (linear_coeff (RBFN.weights_ fa)) A t HA)
    as (R & C & V).
  assert (Hsum :
    sum_upto (cols A) (fun b => coeff A t b * linear_coeff (RBFN.weights_ fa) b) =
    weighted_activation_sum (RBFN.centers_ fa) (RBFN.widths_ fa)
      (fun b => coeff (RBFN.weights_ fa) b 0) inputs t).
  { unfold weighted_activation_sum. fold A.
    apply sum_upto_ext; intros b Hb. f_equal.
    unfold linear_coeff. change (cols A) with (rows (RBFN.centers_ fa)) in Hb.
    rewrite RG, Nat.mod_small, Nat.div_small by lia. reflexivity. }
  assert (Hloop :
    RBFN.weigh_columns (RBFN.n_basis_functions_ fa) (RBFN.weights_ fa) A =
    fold_left (fun M b => scale_col M b (linear_coeff (RBFN.weights_ fa) b))
      (seq 0 (cols A)) A).
  { unfold RBFN.weigh_columns. now rewrite N. }
  unfold RBFN.predict. fold A.
  destruct (Nat.eqb (rows inputs) 1); cbn [snd]; rewrite Hloop;
    (split; [exact R|]); (split; [exact C|]); now rewrite V.
Qed.

Lemma get_weights_coeff mp b :
  (b < rows (RBFN_MP.weights mp))%nat ->
  vcoeff (RBFN_MP.get_weights mp) b = coeff (RBFN_MP.weights mp) b 0.
Proof. intros Hb. unfold RBFN_MP.get_weights. now rewrite vcoeff_map_seq. Qed.

Lemma RBFN_MP_predict_output fa mp inputs t :
  RBFN_MP.model_parameters_ fa = Some mp -> (t < rows inputs)%nat ->
  exists fa' outputs,
    RBFN_MP.predict fa inputs = Returns (fa', outputs) /\
    RBFN_MP.model_parameters_ fa' = Some mp /\
    rows outputs = rows inputs /\ cols outputs = 1%nat /\
    coeff outputs t 0 =
    weighted_activation_sum (RBFN_MP.centers mp) (RBFN_MP.widths mp)
      (vcoeff (RBFN_MP.get_weights mp)) inputs t.
Proof.
  intros Hmp Ht.
  set (A := Gaussian_activations (RBFN_MP.centers mp) (RBFN_MP.widths mp)
              inputs false).
  assert (HA : (t < rows A)%nat) by exact Ht.
  destruct (weighted_rowwise_sum (vcoeff (RBFN_MP.get_weights mp)) A t HA)
    as (R & C & V).
  unfold RBFN_MP.predict. rewrite Hmp. cbn [bind RBFN_MP.deref].
  destruct (Nat.eqb (rows inputs) 1); eexists; eexists;
    (split; [reflexivity|]); cbn [RBFN_MP.model_parameters_];
    (split; [first [exact Hmp | reflexivity]|]);
    (split; [exact R|]); (split; [exact C|]); exact V.
Qed.

(** The sum the code computes is the sum of the specification. *)
Lemma sum_upto_sigma n g : sum_upto n g = sigma n g.
Proof.
  induction n as [|n IH]; [reflexivity|].
  unfold sum_upto, vsum in *. rewrite seq_S, map_app, fold_left_app.
  simpl. now rewrite IH.
Qed.

Lemma sigma_ext n g h :
  (forall i, (i < n)%nat -> g i = h i) -> sigma n g = sigma n h.
Proof.
  induction n as [|n IH]; intros E; simpl; [reflexivity|].
  rewrite IH by (intros i Hi; apply E; lia). now rewrite E by lia.
Qed.

(** An activation is the Gaussian response to the row it belongs to. *)
Lemma activation_is_response centers widths inputs t b :
  cols inputs = cols centers -> (t < rows inputs)%nat -> (b < rows centers)%nat ->
  coeff (Gaussian_activations centers widths inputs false) t b =
  gaussian_response centers widths (row inputs t) b.
Proof.
  intros Hc Ht Hb. unfold Gaussian_activations.
  rewrite coeff_mat_of_fun by assumption.
  unfold gaussian_kernel, gaussian_response. rewrite sum_upto_sigma.
  do 2 f_equal. apply sigma_ext; intros d Hd.
  unfold row. rewrite vcoeff_map_seq by lia. reflexivity.
Qed.

Lemma weighted_activation_sum_sigma centers widths weight inputs t :
  cols inputs = cols centers -> (t < rows inputs)%nat ->
  weighted_activation_sum centers widths weight inputs t =
    sigma (rows centers)
      (fun b => coeff (Gaussian_activations centers widths inputs false) t b *
                weight b) /\
  weighted_activation_sum centers widths weight inputs t =
    sigma (rows centers)
      (fun b => gaussian_response centers widths (row inputs t) b * weight b).
Proof.
  intros Hc Ht. unfold weighted_activation_sum. rewrite sum_upto_sigma.
  split; [reflexivity|].
  apply sigma_ext; intros b Hb. now rewrite activation_is_response.
Qed.

(** C7: for every input row r and every batch whose row t is r, the
    output of [predict] on the one-row matrix [r] equals row t of its
    output on the batch, and both are the weighted sum
    sum_b activations[t][b] * weights[b], that is
    sum_b exp(-0.5 sum_d ((r[d]-centers[b][d])/widths[b][d])^2) * weights[b];
    in the revision that holds the matrices itself and in the revision
    that owns its model parameters. *)
Theorem C7_predict_batching_invariant
    (fa : RBFN.FunctionApproximatorRBFN)
    (fa_mp : RBFN_MP.FunctionApproximatorRBFN)
    (mp : RBFN_MP.ModelParametersRBFN)
    (inputs : MatrixXd) (t : nat) (r : VectorXd) :
  (t < rows inputs)%nat -> row inputs t = r ->
  (RBFN_consistent fa -> cols inputs = cols (RBFN.centers_ fa) ->
   let centers := RBFN.centers_ fa in
   let widths := RBFN.widths_ fa in
   let single := snd (RBFN.predict fa (row_matrix r)) in
   let batch := snd (RBFN.predict fa inputs) in
   let weight b := coeff (RBFN.weights_ fa) b 0 in
   let y := sigma (rows centers)
              (fun b => gaussian_response centers widths r b * weight b) in
   coeff single 0 0 = y /\
   coeff batch t 0 = y /\
   coeff single 0 0 =
     sigma (rows centers)
       (fun b => coeff (Gaussian_activations centers widths (row_matrix r) false)
                   0 b * weight b) /\
   coeff batch t 0 =
     sigma (rows centers)
       (fun b => coeff (Gaussian_activations centers widths inputs false) t b *
                 weight b) /\
   coeff single 0 0 = coeff batch t 0) /\
  (RBFN_MP.model_parameters_ fa_mp = Some mp ->
   cols inputs = cols (RBFN_MP.centers mp) ->
   exists fa1 single fa2 batch,
     RBFN_MP.predict fa_mp (row_matrix r) = Returns (fa1, single) /\
     RBFN_MP.predict fa_mp inputs = Returns (fa2, batch) /\
     let centers := RBFN_MP.centers mp in
     let widths := RBFN_MP.widths mp in
     let weight := vcoeff (RBFN_MP.get_weights mp) in
     let y := sigma (rows centers)
                (fun b => gaussian_response centers widths r b * weight b) in
     coeff single 0 0 = y /\
     coeff batch t 0 = y /\
     coeff single 0 0 =
       sigma (rows centers)
         (fun b => coeff (Gaussian_activations centers widths (row_matrix r) false)
                     0 b * weight b) /\
     coeff batch t 0 =
       sigma (rows centers)
         (fun b => coeff (Gaussian_activations centers widths inputs false) t b *
                   weight b) /\
     coeff single 0 0 = coeff batch t 0).
Proof.
  intros Ht Hr.
  assert (H0 : (0 < rows (row_matrix r))%nat) by (simpl; lia).
  split.
  - intros Hfa Hc; cbv zeta.
    assert (Hc1 : cols (row_matrix r) = cols (RBFN.centers_ fa))
      by (rewrite <- Hc, <- Hr; unfold row; simpl; now rewrite length_map, length_seq).
    destruct (RBFN_predict_output fa (row_matrix r) 0 Hfa H0) as (_ & _ & V1).
    destruct (RBFN_predict_output fa inputs t Hfa Ht) as (_ & _ & V2).
    pose proof (weighted_activation_sum_row (RBFN.centers_ fa) (RBFN.widths_ fa)
                  (fun b => coeff (RBFN.weights_ fa) b 0) inputs t r Hc Ht Hr) as Eq.
    destruct (weighted_activation_sum_sigma (RBFN.centers_ fa) (RBFN.widths_ fa)
                (fun b => coeff (RBFN.weights_ fa) b 0) inputs t Hc Ht) as [S2 S2'].
    destruct (weighted_activation_sum_sigma (RBFN.centers_ fa) (RBFN.widths_ fa)
                (fun b => coeff (RBFN.weights_ fa) b 0) (row_matrix r) 0 Hc1 H0)
      as [S1 _].
    rewrite Hr in S2'.
    repeat split; congruence.
  - intros Hmp Hc.
    assert (Hc1 : cols (row_matrix r) = cols (RBFN_MP.centers mp))
      by (rewrite <- Hc, <- Hr; unfold row; simpl; now rewrite length_map, length_seq).
    destruct (RBFN_MP_predict_output fa_mp mp (row_matrix r) 0 Hmp H0)
      as (fa1 & single & E1 & _ & _ & _ & V1).
    destruct (RBFN_MP_predict_output fa_mp mp inputs t Hmp Ht)
      as (fa2 & batch & E2 & _ & _ & _ & V2).
    exists fa1, single, fa2, batch.
    split; [exact E1|]. split; [exact E2|]. cbv zeta.
    pose proof (weighted_activation_sum_row (RBFN_MP.centers mp) (RBFN_MP.widths mp)
                  (vcoeff (RBFN_MP.get_weights mp)) inputs t r Hc Ht Hr) as Eq.
    destruct (weighted_activation_sum_sigma (RBFN_MP.centers mp) (RBFN_MP.widths mp)
                (vcoeff (RBFN_MP.get_weights mp)) inputs t Hc Ht) as [S2 S2'].
    destruct (weighted_activation_sum_sigma (RBFN_MP.centers mp) (RBFN_MP.widths mp)
                (vcoeff (RBFN_MP.get_weights mp)) (row_matrix r) 0 Hc1 H0)
      as [S1 _].
    rewrite Hr in S2'.
    repeat split; congruence.
Qed.

Lemma C7_witness :
  let centers := mkMatrixXd 1 1 [[0]] in
  let widths := mkMatrixXd 1 1 [[1]] in
  let weights := mkMatrixXd 1 1 [[2]] in
  let fa := RBFN.mkFunctionApproximatorRBFN 1 centers widths weights
              (MatrixXd_alloc 1 1) in
  let mp := RBFN_MP.mkModelParametersRBFN centers widths weights in
  let fa_mp := RBFN_MP.mkFunctionApproximatorRBFN (Some mp) [0]
                 (MatrixXd_alloc 1 1) (MatrixXd_alloc 1 1) in
  let inputs := mkMatrixXd 2 1 [[0]; [1]] in
  (coeff (snd (RBFN.predict fa (row_matrix [1]))) 0 0 = 2 * exp (- 0.5) /\
   coeff (snd (RBFN.predict fa inputs)) 1 0 = 2 * exp (- 0.5)) /\
  exists o1 o2,
    RBFN_MP.predict fa_mp (row_matrix [1]) = Returns o1 /\
    RBFN_MP.predict fa_mp inputs = Returns o2 /\
    coeff (snd o1) 0 0 = 2 * exp (- 0.5) /\
    coeff (snd o2) 1 0 = 2 * exp (- 0.5).
Proof.
  intros centers widths weights fa mp fa_mp inputs.
  assert (Y : forall w0, w0 = 2 ->
    sigma 1 (fun b => gaussian_response centers widths [1] b * w0) =
    2 * exp (- 0.5)).
  { intros w0 ->. unfold gaussian_response, vcoeff, coeff; simpl.
    replace (- 0.5 * (0 + (1 - 0) / 1 * ((1 - 0) / 1 * 1))) with (- 0.5) by lra.
    ring. }
  destruct (C7_predict_batching_invariant fa fa_mp mp inputs 1 [1])
    as [H1 H2]; [simpl; lia | reflexivity |].
  split.
  - destruct H1 as (A & B & _); [repeat split | reflexivity |].
    rewrite A, B. split; apply (Y 2 eq_refl).
  - destruct H2 as (fa1 & single & fa2 & batch & E1 & E2 & A & B & _);
      [reflexivity | reflexivity |].
    exists (fa1, single), (fa2, batch).
    split; [exact E1|]. split; [exact E2|]. cbn [snd].
    rewrite A, B. split; apply (Y 2 eq_refl).
Defined.

(* ================================================================== *)
(** * Further properties of the dynamical systems *)
(* ================================================================== *)

(** ** Construction *)

(** X1: the constructor returns exactly when the order is 1 or 2 and the
    two states have the same size, and aborts on an assertion otherwise;
    the object it returns has dim == order * initial_state.size(), keeps
    the arguments, and integrates with RUNGE_KUTTA. *)
Theorem X1_DynamicalSystem_ctor_spec order tau y_init y_attr :
  let valid := (order = 1%nat \/ order = 2%nat) /\ length y_init = length y_attr in
  (valid ->
   exists d, DynamicalSystem_ctor order tau y_init y_attr = Returns d /\
     dim_ d = (order * length y_init)%nat /\ dim_orig_ d = length y_init /\
     well_formed order d /\ tau_ d = tau /\ initial_state_ d = y_init /\
     attractor_state_ d = y_attr /\ integration_method_ d = RUNGE_KUTTA) /\
  (~ valid -> DynamicalSystem_ctor order tau y_init y_attr = AssertionFailed).
Proof.
  cbv zeta. unfold DynamicalSystem_ctor. split.
  - intros [Ho Hs].
    rewrite assert_true_bind
      by (apply orb_true_iff; destruct Ho as [-> | ->]; auto).
    rewrite assert_true_bind by (now apply Nat.eqb_eq).
    eexists; split; [reflexivity|]. unfold well_formed; simpl.
    repeat split; try lia; auto.
  - intros Hn.
    destruct (Nat.eqb order 1 || Nat.eqb order 2) eqn:Eo.
    + rewrite assert_true_bind by reflexivity.
      apply assert_false_bind, Nat.eqb_neq. intros Es. apply Hn. split; auto.
      apply orb_true_iff in Eo as [E|E]; apply Nat.eqb_eq in E; auto.
    + now apply assert_false_bind.
Qed.

Lemma X1_witness :
  exists d, DynamicalSystem_ctor 2 1 [1; 2] [0; 0] = Returns d /\ dim_ d = 4%nat.
Proof.
  destruct (X1_DynamicalSystem_ctor_spec 2 1 [1; 2] [0; 0]) as [Hok _].
  destruct Hok as (d & E & D & _); [split; [right|]; reflexivity|].
  exists d; split; [exact E | exact D].
Defined.

(** ** Starting an integration *)

Lemma skipn_repeat {A} (a : A) n m : skipn n (repeat a m) = repeat a (m - n).
Proof.
  revert m; induction n as [|n IH]; intros [|m]; simpl; auto.
Qed.

Section IntegrateStartProperties.
Context {S : Type} `{DynamicalSystemImpl S}.
Variable s : S.

Lemma integrateStart_cases (x xd : VectorXd) :
  let y0 := initial_state_ (base s) in
  let dim := dim_ (base s) in
  let x_start := y0 ++ repeat 0 (dim - length y0) in
  integrateStart s x xd =
  if Nat.eqb (length x) dim && Nat.eqb (length xd) dim && Nat.leb (length y0) dim
  then Returns (x_start, differentialEquation s x_start)
  else AssertionFailed.
Proof.
  cbv zeta. unfold integrateStart, segment_assign.
  destruct (Nat.eqb_spec (length x) (dim_ (base s))) as [Ex|]; [|reflexivity].
  destruct (Nat.eqb (length xd) (dim_ (base s))); [|reflexivity].
  cbn [assert bind andb]. unfold fill. rewrite repeat_length, Ex. simpl.
  destruct (Nat.leb (length (initial_state_ (base s))) (dim_ (base s)));
    [|reflexivity].
  cbn [assert bind]. now rewrite skipn_repeat.
Qed.

(** X2: [integrateStart] aborts unless [x] and [xd] have [dim]
    coefficients and the initial state fits into [x]; otherwise it
    returns the initial state padded with zeros up to [dim], and the
    derivative at that padded state. *)
Theorem X2_integrateStart_pads_with_zeros (x xd : VectorXd) :
  let y0 := initial_state_ (base s) in
  let dim := dim_ (base s) in
  let x_start := y0 ++ repeat 0 (dim - length y0) in
  integrateStart s x xd =
  if Nat.eqb (length x) dim && Nat.eqb (length xd) dim && Nat.leb (length y0) dim
  then Returns (x_start, differentialEquation s x_start)
  else AssertionFailed.
Proof. apply integrateStart_cases. Qed.

End IntegrateStartProperties.

(** ** The closed-form trajectory *)

Lemma exp_nonpos_le_1 a : a <= 0 -> 0 < exp a <= 1.
Proof.
  intros Ha. split; [apply exp_pos|].
  destruct Ha as [Hlt | ->]; [|rewrite exp_0; lra].
  left. rewrite <- exp_0. now apply exp_increasing.
Qed.

Lemma exp_monotone a b : a <= b -> exp a <= exp b.
Proof.
  intros [Hlt | ->]; [left; now apply exp_increasing | lra].
Qed.

Section TrajectoryProperties.
Variable s : ExponentialSystem.
Let d := as_DynamicalSystem s.
Let alpha := alpha_ s.
Let tau := tau_ d.
Let y0 := initial_state_ d.
Let ya := attractor_state_ d.
Hypothesis WF : well_formed 1 d.

(** Every entry of the two returned matrices, in either orientation. *)
Lemma analyticalSolution_entries ts xs0 xds0 :
  ts <> [] ->
  exists xs xds,
    analyticalSolution s ts xs0 xds0 = Returns (xs, xds) /\
    forall t i, (t < length ts)%nat -> (i < dim_ d)%nat ->
      entry s ts xs0 xs t i =
        vcoeff ya i + (vcoeff y0 i - vcoeff ya i) * exp (- alpha * vcoeff ts t / tau) /\
      entry s ts xs0 xds t i =
        - (alpha / tau) * (vcoeff y0 i - vcoeff ya i) *
        exp (- alpha * vcoeff ts t / tau).
Proof.
  intros Hts. rewrite analyticalSolution_unfold by assumption.
  destruct (time_major_shape s WF ts) as (R1 & C1 & R2 & C2).
  unfold entry. fold d.
  destruct (Nat.eqb (rows xs0) (dim_ d) && Nat.eqb (cols xs0) (length ts));
    eexists; eexists; (split; [reflexivity|]); intros t i Ht Hi;
    rewrite ?coeff_transposeInPlace by (unfold d in *; lia);
    (split; [now apply xs_time_major_coeff | now apply xds_time_major_coeff]).
Qed.

(** X3: the derivative [analyticalSolution] returns is the differential
    equation evaluated at the state it returns, at every sampled time:
    xd(t) = alpha (ya - x(t)) / tau. *)
Theorem X3_analyticalSolution_solves_the_equation ts xs0 xds0 :
  ts <> [] ->
  exists xs xds,
    analyticalSolution s ts xs0 xds0 = Returns (xs, xds) /\
    forall t i, (t < length ts)%nat -> (i < dim_ d)%nat ->
      entry s ts xs0 xds t i =
      alpha * (vcoeff ya i - entry s ts xs0 xs t i) / tau.
Proof.
  intros Hts.
  destruct (analyticalSolution_entries ts xs0 xds0 Hts) as (xs & xds & E & V).
  exists xs, xds. split; [exact E|]. intros t i Ht Hi.
  destruct (V t i Ht Hi) as [-> ->]. unfold Rdiv. ring.
Qed.

(** X4: at a sampled time 0 the analytical solution is where
    [integrateStart] starts: the same state (the initial state) and the
    same derivative. *)
Theorem X4_analyticalSolution_starts_like_integrateStart ts xs0 xds0 x xd t :
  ts <> [] -> (t < length ts)%nat -> vcoeff ts t = 0 ->
  length x = dim_ d -> length xd = dim_ d ->
  exists xs xds x_start xd_start,
    analyticalSolution s ts xs0 xds0 = Returns (xs, xds) /\
    integrateStart s x xd = Returns (x_start, xd_start) /\
    x_start = y0 /\
    forall i, (i < dim_ d)%nat ->
      entry s ts xs0 xs t i = vcoeff x_start i /\
      entry s ts xs0 xds t i = vcoeff xd_start i.
Proof.
  intros Hts Ht H0 Hx Hxd.
  destruct (analyticalSolution_entries ts xs0 xds0 Hts) as (xs & xds & E & V).
  destruct (wf_sizes s WF) as [L0 La]. fold d y0 ya in L0, La.
  assert (Es : integrateStart s x xd = Returns (y0, differentialEquation s y0)).
  { rewrite integrateStart_cases. simpl base. fold d y0.
    rewrite Hx, Hxd, L0, Nat.eqb_refl, Nat.leb_refl, Nat.sub_diag. simpl.
    now rewrite app_nil_r. }
  exists xs, xds, y0, (differentialEquation s y0).
  split; [exact E|]. split; [exact Es|]. split; [reflexivity|].
  intros i Hi. destruct (V t i Ht Hi) as [-> ->].
  rewrite (differentialEquation_coeff s WF y0 i L0 Hi). fold d y0 ya alpha tau.
  rewrite H0. replace (- alpha * 0 / tau) with 0 by (unfold Rdiv; ring).
  rewrite exp_0. split; unfold Rdiv; ring.
Qed.

(** X5: for alpha, tau > 0 the analytical solution approaches the
    attractor monotonically and never crosses it: at a later sampled
    time every coordinate is at most as far from the attractor, on the
    same side of it. *)
Theorem X5_analyticalSolution_converges_monotonically ts xs0 xds0 t1 t2 :
  ts <> [] -> 0 < alpha -> 0 < tau ->
  (t1 < length ts)%nat -> (t2 < length ts)%nat ->
  vcoeff ts t1 <= vcoeff ts t2 ->
  exists xs xds,
    analyticalSolution s ts xs0 xds0 = Returns (xs, xds) /\
    forall i, (i < dim_ d)%nat ->
      Rabs (entry s ts xs0 xs t2 i - vcoeff ya i) <=
      Rabs (entry s ts xs0 xs t1 i - vcoeff ya i) /\
      0 <= (entry s ts xs0 xs t2 i - vcoeff ya i) *
           (entry s ts xs0 xs t1 i - vcoeff ya i).
Proof.
  intros Hts Ha Htau H1 H2 Hle.
  destruct (analyticalSolution_entries ts xs0 xds0 Hts) as (xs & xds & E & V).
  exists xs, xds. split; [exact E|]. intros i Hi.
  destruct (V t1 i H1 Hi) as [-> _]. destruct (V t2 i H2 Hi) as [-> _].
  set (e1 := exp (- alpha * vcoeff ts t1 / tau)).
  set (e2 := exp (- alpha * vcoeff ts t2 / tau)).
  set (r := vcoeff y0 i - vcoeff ya i).
  assert (P1 : 0 < e1) by apply exp_pos.
  assert (P2 : 0 < e2) by apply exp_pos.
  assert (M : e2 <= e1).
  { apply exp_monotone. unfold Rdiv.
    apply Rmult_le_compat_r; [left; now apply Rinv_0_lt_compat|]. nra. }
  replace (vcoeff ya i + r * e2 - vcoeff ya i) with (e2 * r) by ring.
  replace (vcoeff ya i + r * e1 - vcoeff ya i) with (e1 * r) by ring.
  split.
  - rewrite !Rabs_mult, (Rabs_pos_eq e1), (Rabs_pos_eq e2) by lra.
    apply Rmult_le_compat_r; [apply Rabs_pos | exact M].
  - replace (e2 * r * (e1 * r)) with (e2 * e1 * (r * r)) by ring.
    apply Rmult_le_pos; [nra | apply Rle_0_sqr].
Qed.

(** X6: a buffer that is square because T == dim is always read as
    dim-major: the state at time ts(t) comes back in column t, also for
    a caller who meant T rows. *)
Theorem X6_square_buffer_is_dim_major ts xs0 xds0 :
  ts <> [] -> length ts = dim_ d ->
  rows xs0 = length ts -> cols xs0 = dim_ d ->
  exists xs xds,
    analyticalSolution s ts xs0 xds0 = Returns (xs, xds) /\
    forall t i, (t < length ts)%nat -> (i < dim_ d)%nat ->
      coeff xs i t =
      vcoeff ya i + (vcoeff y0 i - vcoeff ya i) * exp (- alpha * vcoeff ts t / tau).
Proof.
  intros Hts HT Hr Hc.
  destruct (analyticalSolution_entries ts xs0 xds0 Hts) as (xs & xds & E & V).
  exists xs, xds. split; [exact E|]. intros t i Ht Hi.
  destruct (V t i Ht Hi) as [Vx _]. unfold entry in Vx. fold d in Vx.
  replace (Nat.eqb (rows xs0) (dim_ d)) with true in Vx
    by (symmetry; apply Nat.eqb_eq; lia).
  replace (Nat.eqb (cols xs0) (length ts)) with true in Vx
    by (symmetry; apply Nat.eqb_eq; lia).
  exact Vx.
Qed.

End TrajectoryProperties.

(** X7: [analyticalSolution] reads nothing of its two buffers but the
    shape of [xs]: the contents, and the shape of [xds], have no effect,
    and [xds] always comes back in the shape of [xs]. *)
Theorem X7_analyticalSolution_reads_only_the_shape_of_xs
    (s : ExponentialSystem) (ts : VectorXd) (xs0 xds0 xs0' xds0' : MatrixXd) :
  rows xs0 = rows xs0' -> cols xs0 = cols xs0' ->
  analyticalSolution s ts xs0 xds0 = analyticalSolution s ts xs0' xds0' /\
  (forall xs xds, analyticalSolution s ts xs0 xds0 = Returns (xs, xds) ->
     rows xds = rows xs /\ cols xds = cols xs) /\
  (ts = [] -> analyticalSolution s ts xs0 xds0 = AssertionFailed).
Proof.
  intros Hr Hc. split; [|split].
  - unfold analyticalSolution. now rewrite Hr, Hc.
  - intros xs xds. destruct ts as [|a ts']; [discriminate|].
    rewrite analyticalSolution_unfold by discriminate.
    destruct (_ && _); intros [= <- <-]; split; reflexivity.
  - intros ->. reflexivity.
Qed.

(** ** Steps of the exponential system *)

Section StepProperties.
Variable s : ExponentialSystem.
Let d := as_DynamicalSystem s.
Let alpha := alpha_ s.
Let tau := tau_ d.
Let ya := attractor_state_ d.
Hypothesis WF : well_formed 1 d.
Hypothesis tau_nonzero : tau <> 0.

Lemma euler_step_coeff dt x :
  length x = dim_ d ->
  let r := integrateStepEuler s dt x in
  length (fst r) = dim_ d /\ length (snd r) = dim_ d /\
  forall i, (i < dim_ d)%nat ->
    vcoeff (fst r) i - vcoeff ya i =
      step_factor EULER (dt * alpha / tau) * (vcoeff x i - vcoeff ya i) /\
    vcoeff (snd r) i = alpha * (vcoeff ya i - vcoeff x i) / tau.
Proof.
  intros Hx; cbv zeta. unfold integrateStepEuler; cbn [fst snd].
  pose proof (differentialEquation_size s WF x Hx) as L. fold d in L.
  split; [vlen|]. split; [exact L|].
  intros i Hi.
  rewrite vcoeff_vadd, vcoeff_smul by vlen.
  rewrite (differentialEquation_coeff s WF x i Hx Hi). fold d ya alpha tau.
  split; [|reflexivity]. unfold step_factor. field. exact tau_nonzero.
Qed.

Lemma runge_kutta_step_coeff dt x :
  length x = dim_ d ->
  let r := integrateStepRungeKutta s dt x in
  length (fst r) = dim_ d /\ length (snd r) = dim_ d /\
  forall i, (i < dim_ d)%nat ->
    vcoeff (fst r) i - vcoeff ya i =
      step_factor RUNGE_KUTTA (dt * alpha / tau) * (vcoeff x i - vcoeff ya i) /\
    vcoeff (snd r) i = alpha * (vcoeff ya i - vcoeff (fst r) i) / tau.
Proof.
  intros Hx; cbv zeta. unfold integrateStepRungeKutta; cbn [fst snd].
  set (f := differentialEquation s).
  assert (Fs : forall v, length v = dim_ d -> length (f v) = dim_ d)
    by (intros v Hv; apply (differentialEquation_size s WF v Hv)).
  assert (Fc : forall v i, length v = dim_ d -> (i < dim_ d)%nat ->
             vcoeff (f v) i = alpha * (vcoeff ya i - vcoeff v i) / tau)
    by (intros v i Hv Hi; apply (differentialEquation_coeff s WF v i Hv Hi)).
  set (k1 := f x).
  assert (L1 : length k1 = dim_ d) by (apply Fs; exact Hx).
  set (in2 := x +v dt * 0.5 *v k1).
  assert (I2 : length in2 = dim_ d) by (unfold in2; vlen).
  set (k2 := f in2).
  assert (L2 : length k2 = dim_ d) by (apply Fs; exact I2).
  set (in3 := x +v dt * 0.5 *v k2).
  assert (I3 : length in3 = dim_ d) by (unfold in3; vlen).
  set (k3 := f in3).
  assert (L3 : length k3 = dim_ d) by (apply Fs; exact I3).
  set (in4 := x +v dt *v k3).
  assert (I4 : length in4 = dim_ d) by (unfold in4; vlen).
  set (k4 := f in4).
  assert (L4 : length k4 = dim_ d) by (apply Fs; exact I4).
  set (x' := x +v dt *v (k1 +v 2.0 *v (k2 +v k3) +v k4) /v 6.0).
  assert (Lx : length x' = dim_ d) by (unfold x'; vlen).
  split; [exact Lx|]. split; [apply Fs; exact Lx|].
  intros i Hi. split; [|apply Fc; assumption].
  unfold x'.
  rewrite vcoeff_vadd, vcoeff_sdiv, vcoeff_smul by vlen.
  rewrite !vcoeff_vadd, vcoeff_smul, vcoeff_vadd by vlen.
  unfold k4. rewrite Fc by assumption. unfold in4.
  rewrite vcoeff_vadd, vcoeff_smul by vlen.
  unfold k3. rewrite Fc by assumption. unfold in3.
  rewrite vcoeff_vadd, vcoeff_smul by vlen.
  unfold k2. rewrite Fc by assumption. unfold in2.
  rewrite vcoeff_vadd, vcoeff_smul by vlen.
  unfold k1. rewrite Fc by assumption.
  assert (Hhalf : 0.5 = / 2) by lra.
  assert (Htwo : 2.0 = 2) by lra.
  assert (Hsix : 6.0 = 6) by lra.
  rewrite Hhalf, Htwo, Hsix.
  unfold step_factor. field. exact tau_nonzero.
Qed.

(** One call of [integrateStep], whichever method is configured. *)
Lemma exponential_step dt x :
  0 < dt -> length x = dim_ d ->
  exists x' xd',
    integrateStep s dt x = Returns (x', xd') /\
    length x' = dim_ d /\ length xd' = dim_ d /\
    forall i, (i < dim_ d)%nat ->
      vcoeff x' i - vcoeff ya i =
      step_factor (integration_method_ d) (dt * alpha / tau) *
      (vcoeff x i - vcoeff ya i).
Proof.
  intros Hdt Hx.
  rewrite (integrateStep_checked (H:=ExponentialSystem_impl) s dt x Hdt Hx).
  simpl base. fold d.
  destruct (integration_method_ d); eexists; eexists;
    (split; [reflexivity|]).
  - destruct (euler_step_coeff dt x Hx) as (A & B & C).
    split; [exact A|]. split; [exact B|]. intros i Hi. apply C; exact Hi.
  - destruct (runge_kutta_step_coeff dt x Hx) as (A & B & C).
    split; [exact A|]. split; [exact B|]. intros i Hi. apply C; exact Hi.
Qed.

(** X8: one step multiplies the distance of every coordinate to the
    attractor by a factor that depends only on h = dt alpha / tau:
    1 - h for Euler, and 1 - h + h^2/2 - h^3/6 + h^4/24, the Taylor
    polynomial of exp(-h) of degree 4, for Runge-Kutta. *)
Theorem X8_step_scales_distance_to_attractor dt x :
  0 < dt -> length x = dim_ d ->
  exists x' xd',
    integrateStep s dt x = Returns (x', xd') /\
    length x' = dim_ d /\ length xd' = dim_ d /\
    forall i, (i < dim_ d)%nat ->
      vcoeff x' i - vcoeff ya i =
      step_factor (integration_method_ d) (dt * alpha / tau) *
      (vcoeff x i - vcoeff ya i).
Proof. apply exponential_step. Qed.

(** X9: steps chain: [n] successive calls of [integrateStep], each on
    the state returned by the previous one, never fail an assertion, and
    the state reached is at step_factor ^ n times the initial distance
    from the attractor. *)
Theorem X9_iterated_steps dt n x xd :
  0 < dt -> length x = dim_ d ->
  exists x_n xd_n,
    iterate_integrateStep s dt n x xd = Returns (x_n, xd_n) /\
    length x_n = dim_ d /\
    forall i, (i < dim_ d)%nat ->
      vcoeff x_n i - vcoeff ya i =
      step_factor (integration_method_ d) (dt * alpha / tau) ^ n *
      (vcoeff x i - vcoeff ya i).
Proof.
  intros Hdt. revert x xd. induction n as [|n IH]; intros x xd Hx.
  - exists x, xd. split; [reflexivity|]. split; [exact Hx|].
    intros i _. simpl. ring.
  - destruct (exponential_step dt x Hdt Hx) as (x1 & xd1 & E & L1 & _ & V).
    destruct (IH x1 xd1 L1) as (x_n & xd_n & En & Ln & Vn).
    exists x_n, xd_n. split; [|split; [exact Ln|]].
    + cbn [iterate_integrateStep]. rewrite E. exact En.
    + intros i Hi. rewrite (Vn i Hi), (V i Hi). simpl. ring.
Qed.

(** X10: the derivative returned with the new state is the derivative
    at the new state for Runge-Kutta, but the derivative at the old
    state for Euler; the Euler pair is consistent only in coordinates
    where h alpha (x - ya) vanishes. *)
Theorem X10_returned_derivative dt x :
  0 < dt -> length x = dim_ d ->
  exists x' xd',
    integrateStep s dt x = Returns (x', xd') /\
    forall i, (i < dim_ d)%nat ->
      match integration_method_ d with
      | RUNGE_KUTTA =>
          vcoeff xd' i = vcoeff (differentialEquation s x') i
      | EULER =>
          vcoeff xd' i = vcoeff (differentialEquation s x) i /\
          (vcoeff xd' i = vcoeff (differentialEquation s x') i <->
           dt * alpha / tau * alpha * (vcoeff x i - vcoeff ya i) = 0)
      end.
Proof.
  intros Hdt Hx.
  rewrite (integrateStep_checked (H:=ExponentialSystem_impl) s dt x Hdt Hx).
  simpl base. fold d.
  destruct (integration_method_ d).
  - exists (fst (integrateStepEuler s dt x)), (snd (integrateStepEuler s dt x)).
    split; [reflexivity|]. intros i Hi.
    destruct (euler_step_coeff dt x Hx) as (A & B & C).
    destruct (C i Hi) as [C1 C2].
    split; [reflexivity|].
    rewrite C2.
    rewrite (differentialEquation_coeff s WF _ i A Hi).
    fold d ya alpha tau. unfold step_factor in C1.
    set (x1 := vcoeff (fst (integrateStepEuler s dt x)) i) in *.
    set (xi := vcoeff x i) in *. set (a := vcoeff ya i) in *.
    assert (X1 : x1 = a + (1 - dt * alpha / tau) * (xi - a)) by lra.
    assert (K : alpha * (a - xi) / tau - alpha * (a - x1) / tau =
                - (dt * alpha / tau * alpha * (xi - a)) * / tau)
      by (rewrite X1; field; exact tau_nonzero).
    pose proof (Rinv_neq_0_compat tau tau_nonzero) as Hinv.
    split; intros E.
    + assert (Z : - (dt * alpha / tau * alpha * (xi - a)) * / tau = 0) by lra.
      apply Rmult_integral in Z as [Z|Z]; [lra | contradiction].
    + rewrite E in K. lra.
  - eexists; eexists. split; [reflexivity|]. intros i Hi. reflexivity.
Qed.

End StepProperties.

(* ================================================================== *)
(** * Further properties of the documents *)
(* ================================================================== *)

Lemma find_member_set_member key k v ms :
  find_member key (set_member k v ms) =
  if String.eqb key k then Some v else find_member key ms.
Proof.
  induction ms as [|[k' v'] ms IH]; simpl.
  - reflexivity.
  - destruct (String.eqb_spec k k') as [<-|Hk]; simpl.
    + destruct (String.eqb key k); reflexivity.
    + rewrite IH. destruct (String.eqb_spec key k') as [->|]; [|reflexivity].
      destruct (String.eqb_spec k' k) as [->|]; [contradiction | reflexivity].
Qed.

(** The keys of a document, compared one after the other. *)
Ltac by_key key :=
  repeat match goal with
  | |- context [String.eqb key ?k] =>
      destruct (String.eqb_spec key k) as [->|?]; [reflexivity|]
  end.

Lemma to_json_helper_cases (s : ExponentialSystem) (j : json) :
  (forall ms, j = JNull /\ ms = [] \/ j = JObject ms ->
   exists ms',
     ExponentialSystem_to_json_helper s j = Returns (JObject ms') /\
     forall key,
       find_member key ms' =
       match exponential_member s key with
       | Some v => Some v
       | None => find_member key ms
       end) /\
  ((forall ms, j <> JObject ms) -> j <> JNull ->
   ExponentialSystem_to_json_helper s j = Throws type_error).
Proof.
  split.
  - intros ms Hj.
    assert (E : exists ms0,
      json_set j "dim_" (JInt (Z.of_nat (dim_ (as_DynamicalSystem s)))) =
        Returns (JObject ms0) /\
      forall key, find_member key ms0 =
        if String.eqb key "dim_"
        then Some (JInt (Z.of_nat (dim_ (as_DynamicalSystem s))))
        else find_member key ms).
    { destruct Hj as [[-> ->] | ->]; simpl; eexists; (split; [reflexivity|]);
        intros key.
      - simpl. destruct (String.eqb key "dim_"); reflexivity.
      - apply find_member_set_member. }
    destruct E as (ms0 & E0 & F0).
    unfold ExponentialSystem_to_json_helper, to_json_base.
    rewrite E0. cbn [bind json_set]. eexists; split; [reflexivity|].
    intros key. rewrite !find_member_set_member, F0.
    unfold exponential_member. by_key key. reflexivity.
  - intros Hobj Hnull.
    destruct j; try reflexivity; [contradiction | exfalso; eapply Hobj; reflexivity].
Qed.

(** X11: [to_json_helper] turns a null value or an object into an
    object in which its eight keys hold the members of the system (the
    class tag of the base class is overwritten by the tag of the
    exponential system) and every other key keeps the value it had; any
    other kind of JSON value makes it throw a type error. *)
Theorem X11_to_json_helper_document (s : ExponentialSystem) (j : json) :
  (forall ms, j = JNull /\ ms = [] \/ j = JObject ms ->
   exists ms',
     ExponentialSystem_to_json_helper s j = Returns (JObject ms') /\
     forall key,
       find_member key ms' =
       match exponential_member s key with
       | Some v => Some v
       | None => find_member key ms
       end) /\
  ((forall ms, j <> JObject ms) -> j <> JNull ->
   ExponentialSystem_to_json_helper s j = Throws type_error).
Proof. apply to_json_helper_cases. Qed.

Lemma X11_witness :
  exists ms',
    ExponentialSystem_to_json_helper (unit_decay EULER)
      (JObject [("note"%string, JBool true); ("tau_"%string, JNull)]) =
    Returns (JObject ms') /\
    find_member "note" ms' = Some (JBool true) /\
    find_member "tau_" ms' = Some (JFloat 1).
Proof.
  destruct (X11_to_json_helper_document (unit_decay EULER)
              (JObject [("note"%string, JBool true); ("tau_"%string, JNull)]))
    as [H _].
  destruct (H _ (or_intror eq_refl)) as (ms' & E & F).
  exists ms'. split; [exact E|]. split; rewrite F; reflexivity.
Defined.

(** What the reader of an exponential system makes of a document,
    given the four members it looks up. *)
Lemma ExponentialSystem_from_json_members ms tau alpha y_init y_attr :
  find_member "tau_" ms = Some (JFloat tau) ->
  find_member "alpha_" ms = Some (JFloat alpha) ->
  find_member "initial_state_" ms = Some (VectorXd_to_json y_init) ->
  find_member "attractor_state_" ms = Some (VectorXd_to_json y_attr) ->
  ExponentialSystem_from_json (JObject ms) =
  ExponentialSystem_ctor tau y_init y_attr alpha.
Proof.
  intros Ht Ha Hi Hg. unfold ExponentialSystem_from_json, json_at.
  rewrite Ht, Ha, Hi, Hg. simpl.
  now rewrite !mapM_get_double_JFloat.
Qed.

Section DocumentRoundTrip.
Variable SigmoidSystem : Type.
Variable TimeSystem : Type.
Variable SigmoidSystem_from_json : json -> outcome SigmoidSystem.
Variable SpringDamperSystem_from_json : json -> outcome SpringDamperSystem.
Variable TimeSystem_from_json : json -> outcome TimeSystem.
Variable FILE : string.

Let from_json' :=
  from_json SigmoidSystem TimeSystem SigmoidSystem_from_json
    SpringDamperSystem_from_json TimeSystem_from_json FILE.

(** X12: a system whose two states have the same size, written by
    [to_json_helper] into a null value or into any object, is read back
    by the polymorphic reader as an exponential system with the same
    tau, alpha, initial and attractor state, with dim and dim_orig
    recomputed from the initial state and the method RUNGE_KUTTA; it is
    the very same system when the original satisfied the class invariant
    and used RUNGE_KUTTA. *)
Theorem X12_polymorphic_round_trip (s : ExponentialSystem) (j : json) ms :
  let d := as_DynamicalSystem s in
  length (initial_state_ d) = length (attractor_state_ d) ->
  j = JNull /\ ms = [] \/ j = JObject ms ->
  let s' :=
    {| as_DynamicalSystem :=
         {| dim_ := (length (initial_state_ d) * 1)%nat;
            dim_orig_ := length (initial_state_ d);
            tau_ := tau_ d;
            initial_state_ := initial_state_ d;
            attractor_state_ := attractor_state_ d;
            integration_method_ := RUNGE_KUTTA |};
       alpha_ := alpha_ s |} in
  exists doc,
    ExponentialSystem_to_json_helper s j = Returns doc /\
    from_json' doc = (Returns (ptr_ExponentialSystem s'), EmptyString) /\
    (well_formed 1 d -> integration_method_ d = RUNGE_KUTTA -> s' = s).
Proof.
  intros d Hsize Hj s'.
  destruct (to_json_helper_cases s j) as [H _].
  destruct (H ms Hj) as (ms' & E & F).
  exists (JObject ms'). split; [exact E|]. split.
  - assert (D : discriminator (JObject ms') =
                Returns "dynamicalsystems.ExponentialSystem.ExponentialSystem"%string).
    { unfold discriminator, json_at. rewrite F. reflexivity. }
    unfold from_json'.
    rewrite (from_json_cases _ _ _ _ _ _ _ _ D).
    replace (found "dynamicalsystems.ExponentialSystem.ExponentialSystem"
               "ExponentialSystem") with true by (vm_compute; reflexivity).
    unfold construct.
    rewrite (ExponentialSystem_from_json_members ms' (tau_ d) (alpha_ s)
               (initial_state_ d) (attractor_state_ d))
      by (rewrite F; reflexivity).
    unfold ExponentialSystem_ctor, DynamicalSystem_ctor.
    rewrite assert_true_bind by reflexivity.
    rewrite assert_true_bind by (now apply Nat.eqb_eq).
    reflexivity.
  - intros (D1 & I & A) Hm. unfold s'.
    destruct s as [[dim dim_orig tau y0 ya m] alpha]. simpl in *.
    subst m. repeat f_equal; lia.
Qed.

(** X13: the document the base class writes on its own carries the tag
    of [DynamicalSystem], which the polymorphic reader does not know:
    reading it back gives the null pointer and the diagnostic. *)
Theorem X13_base_class_document_is_unknown (d : DynamicalSystem) :
  exists doc,
    to_json_base d JNull = Returns doc /\
    discriminator doc =
      Returns "dynamicalsystems.DynamicalSystem.DynamicalSystem"%string /\
    from_json' doc =
      (Returns NULL,
       (FILE ++ ":153:Unknown DynamicalSystem: " ++
        "dynamicalsystems.DynamicalSystem.DynamicalSystem" ++ endl)%string).
Proof.
  eexists. split; [reflexivity|].
  assert (D : discriminator
      (JObject
         [("dim_"%string, JInt (Z.of_nat (dim_ d)));
          ("dim_orig_"%string, JInt (Z.of_nat (dim_orig_ d)));
          ("tau_"%string, JFloat (tau_ d));
          ("initial_state_"%string, VectorXd_to_json (initial_state_ d));
          ("attractor_state_"%string, VectorXd_to_json (attractor_state_ d));
          ("integration_method_"%string,
           JString match integration_method_ d with
                   | EULER => "EULER"
                   | RUNGE_KUTTA => "RUNGE_KUTTA"
                   end);
          ("py/object"%string,
           JString "dynamicalsystems.DynamicalSystem.DynamicalSystem")]) =
      Returns "dynamicalsystems.DynamicalSystem.DynamicalSystem"%string)
    by reflexivity.
  split; [exact D|]. unfold from_json'.
  rewrite (from_json_cases _ _ _ _ _ _ _ _ D).
  replace (found "dynamicalsystems.DynamicalSystem.DynamicalSystem"
             "ExponentialSystem") with false by (vm_compute; reflexivity).
  replace (found "dynamicalsystems.DynamicalSystem.DynamicalSystem"
             "SigmoidSystem") with false by (vm_compute; reflexivity).
  replace (found "dynamicalsystems.DynamicalSystem.DynamicalSystem"
             "SpringDamperSystem") with false by (vm_compute; reflexivity).
  replace (found "dynamicalsystems.DynamicalSystem.DynamicalSystem"
             "TimeSystem") with false by (vm_compute; reflexivity).
  reflexivity.
Qed.


End DocumentRoundTrip.

(** ** Reading an exponential system *)

Lemma json_at_regular j key :
  json_at j key <> AssertionFailed /\ json_at j key <> NullDereference.
Proof.
  unfold json_at. destruct j; try (split; discriminate).
  destruct (find_member key members); split; discriminate.
Qed.

Lemma get_double_regular j :
  get_double j <> AssertionFailed /\ get_double j <> NullDereference.
Proof. destruct j; split; discriminate. Qed.

Lemma mapM_get_double_regular l :
  mapM get_double l <> AssertionFailed /\ mapM get_double l <> NullDereference.
Proof.
  induction l as [|a l [IH1 IH2]]; simpl; [split; discriminate|].
  destruct (get_double_regular a) as [G1 G2].
  destruct (get_double a); try contradiction; simpl; [|split; discriminate].
  destruct (mapM get_double l); try contradiction; simpl; split; discriminate.
Qed.

Lemma VectorXd_from_json_regular j :
  VectorXd_from_json j <> AssertionFailed /\
  VectorXd_from_json j <> NullDereference.
Proof.
  destruct j; try (split; discriminate). apply mapM_get_double_regular.
Qed.

(** Case analysis on the first call of a sequence of calls that cannot
    abort. *)
Ltac first_call :=
  match goal with
  | |- context [bind ?c _ = _] =>
      let E := fresh "E" in
      lazymatch c with
      | json_at ?j ?k =>
          destruct (json_at_regular j k) as [? ?];
          destruct (json_at j k) eqn:E; try contradiction; cbn [bind]
      | from_json_to_double ?j =>
          destruct (get_double_regular j) as [? ?]; unfold from_json_to_double;
          destruct (get_double j) eqn:E; try contradiction; cbn [bind]
      | get_double ?j =>
          destruct (get_double_regular j) as [? ?];
          destruct (get_double j) eqn:E; try contradiction; cbn [bind]
      | VectorXd_from_json ?j =>
          destruct (VectorXd_from_json_regular j) as [? ?];
          destruct (VectorXd_from_json j) eqn:E; try contradiction; cbn [bind]
      end
  end.

Lemma ExponentialSystem_from_json_cases j :
  (exists e, ExponentialSystem_from_json j = Throws e) \/
  (exists tau alpha y_init y_attr,
     json_at j "tau_" <> Throws (out_of_range "tau_") /\
     json_at j "alpha_" <> Throws (out_of_range "alpha_") /\
     json_at j "initial_state_" <> Throws (out_of_range "initial_state_") /\
     json_at j "attractor_state_" <> Throws (out_of_range "attractor_state_") /\
     ExponentialSystem_from_json j =
     ExponentialSystem_ctor tau y_init y_attr alpha).
Proof.
  unfold ExponentialSystem_from_json.
  repeat (first_call; [|left; eexists; reflexivity]).
  right. do 4 eexists. repeat split; try discriminate.
Qed.

(** X15: the reader of an exponential system never dereferences a null
    pointer; a system it returns satisfies the class invariant, has
    states of equal size and integrates with RUNGE_KUTTA; a document
    that is no object, or an object that lacks one of tau_, alpha_,
    initial_state_, attractor_state_, makes it throw. *)
Theorem X15_ExponentialSystem_from_json_outcomes (j : json) :
  ExponentialSystem_from_json j <> NullDereference /\
  (forall s, ExponentialSystem_from_json j = Returns s ->
     well_formed 1 (as_DynamicalSystem s) /\
     length (initial_state_ (as_DynamicalSystem s)) =
       length (attractor_state_ (as_DynamicalSystem s)) /\
     integration_method_ (as_DynamicalSystem s) = RUNGE_KUTTA) /\
  (forall ms key,
     j = JObject ms ->
     In key ["tau_"; "alpha_"; "initial_state_"; "attractor_state_"]%string ->
     find_member key ms = None ->
     exists e, ExponentialSystem_from_json j = Throws e) /\
  ((forall ms, j <> JObject ms) ->
   ExponentialSystem_from_json j = Throws type_error).
Proof.
  assert (Hnonobj : (forall ms, j <> JObject ms) ->
                    ExponentialSystem_from_json j = Throws type_error).
  { intros Hn. destruct j; try reflexivity. exfalso; eapply Hn; reflexivity. }
  destruct (ExponentialSystem_from_json_cases j)
    as [[e E] | (tau & alpha & y0 & ya & P1 & P2 & P3 & P4 & E)].
  - split; [rewrite E; discriminate|]. split; [rewrite E; discriminate|].
    split; [intros; eexists; exact E | exact Hnonobj].
  - split; [|split; [|split; [|exact Hnonobj]]].
    + rewrite E. unfold ExponentialSystem_ctor, DynamicalSystem_ctor.
      rewrite assert_true_bind by reflexivity.
      destruct (Nat.eqb (length y0) (length ya)); discriminate.
    + intros s Hs. rewrite E in Hs.
      destruct (ExponentialSystem_ctor_well_formed _ _ _ _ _ Hs)
        as ((D & I & A) & _ & M).
      split; [repeat split; assumption|]. split; [congruence | exact M].
    + intros ms key -> Hin Hnone. exfalso.
      unfold json_at in P1, P2, P3, P4.
      destruct Hin as [<- | [<- | [<- | [<- | []]]]];
        rewrite Hnone in *; congruence.
Qed.

(* ================================================================== *)
(** * Further properties of the approximator *)
(* ================================================================== *)

Lemma RBFN_ctor_cases (centers widths weights : MatrixXd) :
  let valid :=
    rows centers = rows widths /\ rows centers = rows weights /\
    cols centers = cols widths /\ cols weights = 1%nat in
  (valid ->
   exists fa, RBFN.ctor centers widths weights = Returns fa /\
     RBFN_consistent fa /\ RBFN.centers_ fa = centers /\
     RBFN.widths_ fa = widths /\ RBFN.weights_ fa = weights) /\
  (~ valid -> RBFN.ctor centers widths weights = AssertionFailed).
Proof.
  cbv zeta. unfold RBFN.ctor. split.
  - intros (E1 & E2 & E3 & E4).
    rewrite !assert_true_bind by (now apply Nat.eqb_eq).
    eexists; split; [reflexivity|]. unfold RBFN_consistent; simpl.
    repeat split; congruence.
  - intros Hn.
    destruct (Nat.eqb_spec (rows centers) (rows widths)); [|reflexivity].
    destruct (Nat.eqb_spec (rows centers) (rows weights)); [|reflexivity].
    destruct (Nat.eqb_spec (cols centers) (cols widths)); [|reflexivity].
    destruct (Nat.eqb_spec (cols weights) 1); [|reflexivity].
    exfalso; apply Hn; repeat split; assumption.
Qed.

(** X16: the constructor returns exactly when centers, widths and
    weights have the same number of rows, centers and widths the same
    number of columns, and weights one column; it aborts on an assertion
    otherwise.  The object returned holds the three matrices. *)
Theorem X16_RBFN_ctor_spec (centers widths weights : MatrixXd) :
  let valid :=
    rows centers = rows widths /\ rows centers = rows weights /\
    cols centers = cols widths /\ cols weights = 1%nat in
  (valid ->
   exists fa, RBFN.ctor centers widths weights = Returns fa /\
     RBFN_consistent fa /\ RBFN.centers_ fa = centers /\
     RBFN.widths_ fa = widths /\ RBFN.weights_ fa = weights) /\
  (~ valid -> RBFN.ctor centers widths weights = AssertionFailed).
Proof. apply RBFN_ctor_cases. Qed.

Lemma X16_witness :
  RBFN.ctor (mkMatrixXd 2 1 [[0]; [1]]) (mkMatrixXd 2 1 [[1]; [1]])
            (mkMatrixXd 2 2 [[1; 0]; [0; 1]]) = AssertionFailed.
Proof.
  apply (X16_RBFN_ctor_spec (mkMatrixXd 2 1 [[0]; [1]])
           (mkMatrixXd 2 1 [[1]; [1]]) (mkMatrixXd 2 2 [[1; 0]; [0; 1]])).
  simpl. intros (_ & _ & _ & H). discriminate.
Defined.

(** X17: the scratch memory [predict] writes has no effect on later
    results: predicting on the object left behind by an earlier call
    gives the same outputs as predicting on the original object, in both
    revisions, and the model parameters are unchanged. *)
Theorem X17_predict_scratch_is_unobservable
    (fa : RBFN.FunctionApproximatorRBFN)
    (fa_mp : RBFN_MP.FunctionApproximatorRBFN)
    (earlier inputs : MatrixXd) :
  (let fa' := fst (RBFN.predict fa earlier) in
   snd (RBFN.predict fa' inputs) = snd (RBFN.predict fa inputs) /\
   RBFN.centers_ fa' = RBFN.centers_ fa /\
   RBFN.widths_ fa' = RBFN.widths_ fa /\
   RBFN.weights_ fa' = RBFN.weights_ fa) /\
  (forall fa' out,
     RBFN_MP.predict fa_mp earlier = Returns (fa', out) ->
     RBFN_MP.model_parameters_ fa' = RBFN_MP.model_parameters_ fa_mp /\
     exists fa1 fa2 outputs,
       RBFN_MP.predict fa' inputs = Returns (fa1, outputs) /\
       RBFN_MP.predict fa_mp inputs = Returns (fa2, outputs)).
Proof.
  split.
  - cbv zeta.
    destruct (RBFN_predict_preserves fa earlier) as (N & C & W & G).
    split; [|auto].
    unfold RBFN.predict at 1 3. rewrite N, C, W, G.
    destruct (Nat.eqb (rows inputs) 1); reflexivity.
  - intros fa' out E.
    unfold RBFN_MP.predict in E.
    destruct (RBFN_MP.model_parameters_ fa_mp) as [mp|] eqn:M; [|discriminate].
    cbn [bind RBFN_MP.deref] in E.
    assert (M' : RBFN_MP.model_parameters_ fa' = Some mp)
      by (destruct (Nat.eqb (rows earlier) 1); injection E as <- _;
          first [exact M | reflexivity]).
    split; [exact M'|].
    unfold RBFN_MP.predict. rewrite M, M'. cbn [bind RBFN_MP.deref].
    destruct (Nat.eqb (rows inputs) 1); do 3 eexists; split; reflexivity.
Qed.

(** ** Linearity in the weights *)

Lemma fold_left_Rplus_acc l a : fold_left Rplus l a = a + fold_left Rplus l 0.
Proof.
  revert a; induction l as [|x l IH]; intros a; simpl; [ring|].
  rewrite (IH (a + x)), (IH (0 + x)). ring.
Qed.

Lemma sum_upto_S n g : sum_upto (S n) g = sum_upto n g + g n.
Proof.
  unfold sum_upto, vsum. rewrite seq_S, map_app, fold_left_app. reflexivity.
Qed.

Lemma sum_upto_scale n c a w :
  sum_upto n (fun b => a b * (c * w b)) = c * sum_upto n (fun b => a b * w b).
Proof.
  induction n as [|n IH]; [unfold sum_upto, vsum; simpl; ring|].
  rewrite !sum_upto_S, IH. ring.
Qed.

Lemma sum_upto_plus n a w1 w2 :
  sum_upto n (fun b => a b * (w1 b + w2 b)) =
  sum_upto n (fun b => a b * w1 b) + sum_upto n (fun b => a b * w2 b).
Proof.
  induction n as [|n IH]; [unfold sum_upto, vsum; simpl; ring|].
  rewrite !sum_upto_S, IH. ring.
Qed.

Lemma with_weights_consistent fa g :
  RBFN_consistent fa -> rows g = rows (RBFN.centers_ fa) -> cols g = 1%nat ->
  RBFN_consistent (with_weights fa g).
Proof.
  intros (N & RW & RG & CW & CG) Hr Hc. unfold RBFN_consistent; simpl.
  repeat split; assumption.
Qed.

(** X18: the prediction is linear in the weights: scaling the weights
    by c scales every output by c, and the output for the sum of two
    weight matrices is the sum of the outputs. *)
Theorem X18_predict_is_linear_in_the_weights
    (fa : RBFN.FunctionApproximatorRBFN) (g1 g2 : MatrixXd) (c : R)
    (inputs : MatrixXd) (t : nat) :
  RBFN_consistent fa ->
  rows g1 = rows (RBFN.centers_ fa) -> cols g1 = 1%nat ->
  rows g2 = rows (RBFN.centers_ fa) -> cols g2 = 1%nat ->
  (t < rows inputs)%nat ->
  let output g := coeff (snd (RBFN.predict (with_weights fa g) inputs)) t 0 in
  output (mscale c g1) = c * output g1 /\
  output (madd g1 g2) = output g1 + output g2.
Proof.
  intros Hfa R1 C1 R2 C2 Ht; cbv beta zeta.
  assert (P : forall g, rows g = rows (RBFN.centers_ fa) -> cols g = 1%nat ->
    coeff (snd (RBFN.predict (with_weights fa g) inputs)) t 0 =
    weighted_activation_sum (RBFN.centers_ fa) (RBFN.widths_ fa)
      (fun b => coeff g b 0) inputs t).
  { intros g Hr Hc.
    destruct (RBFN_predict_output (with_weights fa g) inputs t
                (with_weights_consistent fa g Hfa Hr Hc) Ht) as (_ & _ & V).
    exact V. }
  rewrite (P (mscale c g1)), (P (madd g1 g2)), (P g1), (P g2)
    by (simpl; assumption).
  unfold weighted_activation_sum. split.
  - rewrite <- sum_upto_scale. apply sum_upto_ext; intros b Hb. f_equal.
    unfold mscale. rewrite coeff_mat_of_fun by lia. reflexivity.
  - rewrite <- sum_upto_plus. apply sum_upto_ext; intros b Hb. f_equal.
    unfold madd. rewrite coeff_mat_of_fun by lia. reflexivity.
Qed.


(** ** Reading an approximator *)













(* ================================================================== *)
(** * The further properties at concrete systems *)
(* ================================================================== *)

Lemma unit_decay_tau_nonzero m : tau_ (as_DynamicalSystem (unit_decay m)) <> 0.
Proof. simpl. lra. Qed.

Lemma X3_witness :
  exists xs xds,
    analyticalSolution (unit_decay RUNGE_KUTTA) [0; 1]
      (MatrixXd_alloc 0 0) (MatrixXd_alloc 0 0) = Returns (xs, xds) /\
    coeff xds 1 0 = 1 * (0 - coeff xs 1 0) / 1.
Proof.
  destruct (X3_analyticalSolution_solves_the_equation
              (unit_decay RUNGE_KUTTA) (unit_decay_well_formed RUNGE_KUTTA)
              [0; 1] (MatrixXd_alloc 0 0) (MatrixXd_alloc 0 0))
    as (xs & xds & E & V); [discriminate|].
  exists xs, xds. split; [exact E|].
  apply (V 1%nat 0%nat); simpl; lia.
Defined.

Lemma X4_witness :
  exists xs xds xd_start,
    analyticalSolution (unit_decay RUNGE_KUTTA) [0]
      (MatrixXd_alloc 0 0) (MatrixXd_alloc 0 0) = Returns (xs, xds) /\
    integrateStart (unit_decay RUNGE_KUTTA) [5] [5] = Returns ([1], xd_start) /\
    coeff xs 0 0 = 1 /\ coeff xds 0 0 = vcoeff xd_start 0.
Proof.
  destruct (X4_analyticalSolution_starts_like_integrateStart
              (unit_decay RUNGE_KUTTA) (unit_decay_well_formed RUNGE_KUTTA)
              [0] (MatrixXd_alloc 0 0) (MatrixXd_alloc 0 0) [5] [5] 0)
    as (xs & xds & x_start & xd_start & E1 & E2 & -> & V);
    [discriminate | simpl; lia | reflexivity | reflexivity | reflexivity |].
  exists xs, xds, xd_start. split; [exact E1|]. split; [exact E2|].
  apply (V 0%nat). simpl; lia.
Defined.

Lemma X5_witness :
  exists xs xds,
    analyticalSolution (unit_decay RUNGE_KUTTA) [0; 1]
      (MatrixXd_alloc 0 0) (MatrixXd_alloc 0 0) = Returns (xs, xds) /\
    Rabs (coeff xs 1 0 - 0) <= Rabs (coeff xs 0 0 - 0).
Proof.
  destruct (X5_analyticalSolution_converges_monotonically
              (unit_decay RUNGE_KUTTA) (unit_decay_well_formed RUNGE_KUTTA)
              [0; 1] (MatrixXd_alloc 0 0) (MatrixXd_alloc 0 0) 0 1)
    as (xs & xds & E & V);
    [discriminate | simpl; lra | simpl; lra | simpl; lia | simpl; lia
    | unfold vcoeff; simpl; lra |].
  exists xs, xds. split; [exact E|].
  apply (V 0%nat). simpl; lia.
Defined.

Lemma planar_decay_well_formed : well_formed 1 (as_DynamicalSystem planar_decay).
Proof. repeat split. Qed.

Lemma X6_witness :
  exists xs xds,
    analyticalSolution planar_decay [0; 1]
      (MatrixXd_alloc 2 2) (MatrixXd_alloc 2 2) = Returns (xs, xds) /\
    coeff xs 0 0 = 1 /\ coeff xs 1 0 = 2 /\
    coeff xs 0 1 = exp (-1) /\ coeff xs 1 1 = 2 * exp (-1).
Proof.
  destruct (X6_square_buffer_is_dim_major
              planar_decay planar_decay_well_formed
              [0; 1] (MatrixXd_alloc 2 2) (MatrixXd_alloc 2 2))
    as (xs & xds & E & V);
    [discriminate | reflexivity | reflexivity | reflexivity |].
  exists xs, xds. split; [exact E|].
  assert (E0 : exp (- (1) * 0 / 1) = 1)
    by (replace (- (1) * 0 / 1) with 0 by lra; apply exp_0).
  assert (E1 : exp (- (1) * 1 / 1) = exp (-1))
    by (f_equal; lra).
  repeat split.
  - rewrite (V 0%nat 0%nat) by (simpl; lia).
    unfold vcoeff; simpl. rewrite E0. ring.
  - rewrite (V 0%nat 1%nat) by (simpl; lia).
    unfold vcoeff; simpl. rewrite E0. ring.
  - rewrite (V 1%nat 0%nat) by (simpl; lia).
    unfold vcoeff; simpl. rewrite E1. ring.
  - rewrite (V 1%nat 1%nat) by (simpl; lia).
    unfold vcoeff; simpl. rewrite E1. ring.
Defined.

Lemma X7_witness :
  analyticalSolution (unit_decay RUNGE_KUTTA) [0; 1]
    (MatrixXd_alloc 1 2) (MatrixXd_alloc 2 1) =
  analyticalSolution (unit_decay RUNGE_KUTTA) [0; 1]
    (mkMatrixXd 1 2 [[7; 8]]) (MatrixXd_alloc 0 0).
Proof.
  apply (X7_analyticalSolution_reads_only_the_shape_of_xs
           (unit_decay RUNGE_KUTTA) [0; 1] (MatrixXd_alloc 1 2)
           (MatrixXd_alloc 2 1) (mkMatrixXd 1 2 [[7; 8]]) (MatrixXd_alloc 0 0));
    reflexivity.
Defined.

Lemma X8_witness :
  exists x' xd',
    integrateStep (unit_decay EULER) 0.5 [3] = Returns (x', xd') /\
    vcoeff x' 0 - 0 = (1 - 0.5 * 1 / 1) * (3 - 0).
Proof.
  destruct (X8_step_scales_distance_to_attractor
              (unit_decay EULER) (unit_decay_well_formed EULER)
              (unit_decay_tau_nonzero EULER) 0.5 [3])
    as (x' & xd' & E & _ & _ & V); [lra | reflexivity |].
  exists x', xd'. split; [exact E|].
  apply (V 0%nat). simpl; lia.
Defined.

Lemma X9_witness :
  exists x_n xd_n,
    iterate_integrateStep (unit_decay EULER) 0.5 3 [3] [0] =
      Returns (x_n, xd_n) /\
    vcoeff x_n 0 - 0 = (1 - 0.5 * 1 / 1) ^ 3 * (3 - 0).
Proof.
  destruct (X9_iterated_steps
              (unit_decay EULER) (unit_decay_well_formed EULER)
              (unit_decay_tau_nonzero EULER) 0.5 3 [3] [0])
    as (x_n & xd_n & E & _ & V); [lra | reflexivity |].
  exists x_n, xd_n. split; [exact E|].
  apply (V 0%nat). simpl; lia.
Defined.

Lemma X10_witness :
  exists x' xd',
    integrateStep (unit_decay EULER) 0.5 [3] = Returns (x', xd') /\
    vcoeff xd' 0 = vcoeff (differentialEquation (unit_decay EULER) [3]) 0 /\
    vcoeff xd' 0 <> vcoeff (differentialEquation (unit_decay EULER) x') 0.
Proof.
  destruct (X10_returned_derivative
              (unit_decay EULER) (unit_decay_well_formed EULER)
              (unit_decay_tau_nonzero EULER) 0.5 [3])
    as (x' & xd' & E & V); [lra | reflexivity |].
  exists x', xd'. split; [exact E|].
  destruct (V 0%nat) as [V1 V2]; [simpl; lia|].
  split; [exact V1|]. intros Heq. apply V2 in Heq.
  unfold vcoeff in Heq; simpl in Heq. lra.
Defined.

Lemma X12_witness :
  exists doc s',
    ExponentialSystem_to_json_helper (unit_decay RUNGE_KUTTA) JNull =
      Returns doc /\
    from_json unit unit (fun _ => Throws type_error) (fun _ => Throws type_error)
      (fun _ => Throws type_error) "DynamicalSystem.cpp" doc =
      (Returns (ptr_ExponentialSystem s'), EmptyString) /\
    s' = unit_decay RUNGE_KUTTA.
Proof.
  destruct (X12_polymorphic_round_trip unit unit (fun _ => Throws type_error)
              (fun _ => Throws type_error) (fun _ => Throws type_error)
              "DynamicalSystem.cpp" (unit_decay RUNGE_KUTTA) JNull [])
    as (doc & E1 & E2 & E3); [reflexivity | left; split; reflexivity |].
  eexists; eexists. split; [exact E1|]. split; [exact E2|].
  apply E3; [apply unit_decay_well_formed | reflexivity].
Defined.

Lemma X18_witness :
  let fa := RBFN.mkFunctionApproximatorRBFN 1 (mkMatrixXd 1 1 [[0]])
              (mkMatrixXd 1 1 [[1]]) (mkMatrixXd 1 1 [[2]])
              (MatrixXd_alloc 1 1) in
  let inputs := mkMatrixXd 2 1 [[0]; [1]] in
  let output g := coeff (snd (RBFN.predict (with_weights fa g) inputs)) 1 0 in
  output (mscale 5 (mkMatrixXd 1 1 [[2]])) = 5 * output (mkMatrixXd 1 1 [[2]]).
Proof.
  intros fa inputs output.
  apply (X18_predict_is_linear_in_the_weights fa (mkMatrixXd 1 1 [[2]])
           (mkMatrixXd 1 1 [[3]]) 5 inputs 1);
    try reflexivity; [repeat split | simpl; lia].
Defined.


(** X22: [integrateStart(x_init, x, xd)] replaces the initial state
    before it starts: it returns x_init itself and the derivative
    alpha (ya - x_init) / tau, and the system it leaves behind starts
    from x_init again when [integrateStart(x, xd)] is called on it. *)
Theorem X22_integrateStart_from_resets_initial_state
    (s : ExponentialSystem) (x_init x xd : VectorXd) :
  let d := as_DynamicalSystem s in
  well_formed 1 d ->
  length x_init = dim_ d -> length x = dim_ d -> length xd = dim_ d ->
  exists s' xd_start,
    ExponentialSystem_integrateStart_from s x_init x xd =
      Returns (s', (x_init, xd_start)) /\
    initial_state_ (as_DynamicalSystem s') = x_init /\
    well_formed 1 (as_DynamicalSystem s') /\
    integrateStart s' x xd = Returns (x_init, xd_start) /\
    forall i, (i < dim_ d)%nat ->
      vcoeff xd_start i =
      alpha_ s * (vcoeff (attractor_state_ d) i - vcoeff x_init i) / tau_ d.
Proof.
  intros d (D & I & A) Hi Hx Hxd.
  set (s' := {| as_DynamicalSystem := set_initial_state x_init d;
                alpha_ := alpha_ s |}).
  assert (WF' : well_formed 1 (as_DynamicalSystem s')).
  { unfold well_formed; simpl. fold d. repeat split; lia. }
  assert (E : integrateStart s' x xd =
              Returns (x_init, differentialEquation s' x_init)).
  { rewrite integrateStart_cases. simpl base. simpl dim_. simpl initial_state_.
    fold d. rewrite Hx, Hxd, Hi, Nat.eqb_refl, Nat.leb_refl, Nat.sub_diag.
    simpl. now rewrite app_nil_r. }
  exists s', (differentialEquation s' x_init).
  split; [|split; [reflexivity | split; [exact WF' | split; [exact E|]]]].
  - unfold ExponentialSystem_integrateStart_from. fold d. fold s'.
    rewrite E. reflexivity.
  - intros i Hlt.
    apply (differentialEquation_coeff s' WF' x_init i); simpl; fold d; lia.
Qed.

Lemma X22_witness :
  exists s' xd_start,
    ExponentialSystem_integrateStart_from (unit_decay RUNGE_KUTTA) [7] [0] [0] =
      Returns (s', ([7], xd_start)) /\
    integrateStart s' [0] [0] = Returns ([7], xd_start).
Proof.
  destruct (X22_integrateStart_from_resets_initial_state
              (unit_decay RUNGE_KUTTA) [7] [0] [0]
              (unit_decay_well_formed RUNGE_KUTTA) eq_refl eq_refl eq_refl)
    as (s' & xd_start & E1 & _ & _ & E2 & _).
  exists s', xd_start. split; [exact E1 | exact E2].
Defined.
